(** * pkg info: the query layer of pkg(8)

    A shallow embedding of [exec_info] (the [pkg info] command): option
    processing, the choice of the match mode and of the requested
    categories, the in-place scan that splits a specifier into a name and up
    to two version constraints, the cursor loop that re-filters the
    candidates, and the threading of the exit status through the specifiers.

    The C function works on the [argv] strings in place and keeps pointers
    into them across specifiers, so the model keeps the strings in a store
    and the pointers as (string, offset) pairs.

    The second part is the event layer of libpkg (pkg_event.c): the
    escape of a string for JSON, the line that [pipeevent] writes for each
    kind of event, and the order in which an emitted event reaches the
    plugin hook, the registered callback and the event pipe. *)

From Stdlib Require Import ZArith Ascii String Lia.
From stdpp Require Import base tactics option list strings pretty.

(** ** Codes and enumerations *)

(** sysexits.h *)
Definition EX_OK : Z := 0.
Definition EX_USAGE : Z := 64.
Definition EX_UNAVAILABLE : Z := 69.
Definition EX_SOFTWARE : Z := 70.
Definition EX_IOERR : Z := 74.
Definition EX_NOPERM : Z := 77.

(** [enum sign] of info.c; [int sign = 0] is [LT]. *)
Inductive enum_sign := LT | LE | GT | GE | EQ.

(** [match_t] of pkg.h. *)
Inductive match_t :=
  MATCH_ALL | MATCH_EXACT | MATCH_GLOB | MATCH_REGEX | MATCH_CONDITION.

(** [pkg_error_t] of pkg.h. *)
Inductive pkg_error_t :=
  | EPKG_OK | EPKG_END | EPKG_WARN | EPKG_FATAL | EPKG_REQUIRED
  | EPKG_INSTALLED | EPKG_DEPENDENCY | EPKG_LOCKED | EPKG_ENODB
  | EPKG_UPTODATE | EPKG_UNKNOWN | EPKG_REPOSCHEMA | EPKG_ENOACCESS
  | EPKG_INSECURE.

#[global] Instance enum_sign_eq_dec : EqDecision enum_sign.
Proof. solve_decision. Defined.
#[global] Instance match_t_eq_dec : EqDecision match_t.
Proof. solve_decision. Defined.
#[global] Instance pkg_error_t_eq_dec : EqDecision pkg_error_t.
Proof. solve_decision. Defined.

(** The category bits of pkgcli.h and the open flag of pkg.h that
    [exec_info] names.  The headers are not part of the sources at hand, so
    the values are parameters of the model. *)
Record headers := {
  INFO_TAG_NAMEVER : Z;
  INFO_ANNOTATIONS : Z;
  INFO_MESSAGE : Z;
  INFO_DEPS : Z;
  INFO_COMMENT : Z;
  INFO_RDEPS : Z;
  INFO_LOCKED : Z;
  INFO_FILES : Z;
  INFO_DIRS : Z;
  INFO_SHLIBS_PROVIDED : Z;
  INFO_SHLIBS_REQUIRED : Z;
  INFO_FLATSIZE : Z;
  INFO_ORIGIN : Z;
  INFO_PREFIX : Z;
  INFO_FULL : Z;
  INFO_RAW : Z;
  INFO_ALL : Z;
  PKG_OPEN_MANIFEST_COMPACT : Z
}.

(** ** Packages, cursors and the world outside [exec_info] *)

(** A package as the cursor yields it; [exec_info] reads [PKG_VERSION]. *)
Record pkg := { pkg_name : string; pkg_version : string }.

(** A cursor ([struct pkgdb_it]): the records [pkgdb_it_next] yields with
    [EPKG_OK], then the code it returns once they are exhausted
    ([EPKG_END] on a clean end). *)
Record pkgdb_it := { it_pkgs : list pkg; it_last : pkg_error_t }.

(** What libpkg answers. [pkgdb_query] gets [None] for a NULL pattern and
    answers [None] for a NULL cursor; [pkg_open] answers [None] for any
    code other than [EPKG_OK]. *)
Record world := {
  pkgdb_access : pkg_error_t;
  pkgdb_open : pkg_error_t;
  pkgdb_query : option string -> match_t -> option pkgdb_it;
  pkg_version_cmp : string -> string -> Z;
  pkg_open : string -> Z -> option pkg
}.

(** What reaches the outside: the calls of [exec_info] in order.
    [print_info] reads the global [quiet], so the event records it. *)
Inductive event :=
  | EvUsage
  | EvStderr (msg : string)
  | EvWarnx (msg : string)
  | EvCaseSensitivity (sensitive : bool)
  | EvPkgOpen (file : string) (open_flags : Z)
  | EvQuery (pattern : option string) (m : match_t)
  | EvPrintInfo (p : pkg) (o : Z) (q : bool)
  | EvItFree.

(** ** The state of [exec_info] *)

(** A [char *] into one of the [argv] strings: the index of the string
    (after [argv += optind]) and the offset in it. *)
Definition ptr : Type := nat * nat.

Record state := {
  argv : list (list ascii);
  opt : Z;
  match_mode : match_t;
  quiet : bool;
  retcode : Z;
  gotone : bool;
  pkgversion : option ptr;
  pkgversion2 : option ptr;
  sign : enum_sign;
  sign2 : enum_sign;
  pkg_exists : bool;
  origin_search : bool;
  e_flag : bool;
  file : option string;
  out : list event
}.

Definition set_argv v s :=
  {| argv := v; opt := opt s; match_mode := match_mode s; quiet := quiet s;
     retcode := retcode s; gotone := gotone s; pkgversion := pkgversion s;
     pkgversion2 := pkgversion2 s; sign := sign s; sign2 := sign2 s;
     pkg_exists := pkg_exists s; origin_search := origin_search s;
     e_flag := e_flag s; file := file s; out := out s |}.
Definition set_opt v s :=
  {| argv := argv s; opt := v; match_mode := match_mode s; quiet := quiet s;
     retcode := retcode s; gotone := gotone s; pkgversion := pkgversion s;
     pkgversion2 := pkgversion2 s; sign := sign s; sign2 := sign2 s;
     pkg_exists := pkg_exists s; origin_search := origin_search s;
     e_flag := e_flag s; file := file s; out := out s |}.
Definition set_match v s :=
  {| argv := argv s; opt := opt s; match_mode := v; quiet := quiet s;
     retcode := retcode s; gotone := gotone s; pkgversion := pkgversion s;
     pkgversion2 := pkgversion2 s; sign := sign s; sign2 := sign2 s;
     pkg_exists := pkg_exists s; origin_search := origin_search s;
     e_flag := e_flag s; file := file s; out := out s |}.
Definition set_quiet v s :=
  {| argv := argv s; opt := opt s; match_mode := match_mode s; quiet := v;
     retcode := retcode s; gotone := gotone s; pkgversion := pkgversion s;
     pkgversion2 := pkgversion2 s; sign := sign s; sign2 := sign2 s;
     pkg_exists := pkg_exists s; origin_search := origin_search s;
     e_flag := e_flag s; file := file s; out := out s |}.
Definition set_retcode v s :=
  {| argv := argv s; opt := opt s; match_mode := match_mode s; quiet := quiet s;
     retcode := v; gotone := gotone s; pkgversion := pkgversion s;
     pkgversion2 := pkgversion2 s; sign := sign s; sign2 := sign2 s;
     pkg_exists := pkg_exists s; origin_search := origin_search s;
     e_flag := e_flag s; file := file s; out := out s |}.
Definition set_gotone v s :=
  {| argv := argv s; opt := opt s; match_mode := match_mode s; quiet := quiet s;
     retcode := retcode s; gotone := v; pkgversion := pkgversion s;
     pkgversion2 := pkgversion2 s; sign := sign s; sign2 := sign2 s;
     pkg_exists := pkg_exists s; origin_search := origin_search s;
     e_flag := e_flag s; file := file s; out := out s |}.
Definition set_pkgversion v s :=
  {| argv := argv s; opt := opt s; match_mode := match_mode s; quiet := quiet s;
     retcode := retcode s; gotone := gotone s; pkgversion := v;
     pkgversion2 := pkgversion2 s; sign := sign s; sign2 := sign2 s;
     pkg_exists := pkg_exists s; origin_search := origin_search s;
     e_flag := e_flag s; file := file s; out := out s |}.
Definition set_pkgversion2 v s :=
  {| argv := argv s; opt := opt s; match_mode := match_mode s; quiet := quiet s;
     retcode := retcode s; gotone := gotone s; pkgversion := pkgversion s;
     pkgversion2 := v; sign := sign s; sign2 := sign2 s;
     pkg_exists := pkg_exists s; origin_search := origin_search s;
     e_flag := e_flag s; file := file s; out := out s |}.
Definition set_sign v s :=
  {| argv := argv s; opt := opt s; match_mode := match_mode s; quiet := quiet s;
     retcode := retcode s; gotone := gotone s; pkgversion := pkgversion s;
     pkgversion2 := pkgversion2 s; sign := v; sign2 := sign2 s;
     pkg_exists := pkg_exists s; origin_search := origin_search s;
     e_flag := e_flag s; file := file s; out := out s |}.
Definition set_sign2 v s :=
  {| argv := argv s; opt := opt s; match_mode := match_mode s; quiet := quiet s;
     retcode := retcode s; gotone := gotone s; pkgversion := pkgversion s;
     pkgversion2 := pkgversion2 s; sign := sign s; sign2 := v;
     pkg_exists := pkg_exists s; origin_search := origin_search s;
     e_flag := e_flag s; file := file s; out := out s |}.
Definition set_pkg_exists v s :=
  {| argv := argv s; opt := opt s; match_mode := match_mode s; quiet := quiet s;
     retcode := retcode s; gotone := gotone s; pkgversion := pkgversion s;
     pkgversion2 := pkgversion2 s; sign := sign s; sign2 := sign2 s;
     pkg_exists := v; origin_search := origin_search s;
     e_flag := e_flag s; file := file s; out := out s |}.
Definition set_origin_search v s :=
  {| argv := argv s; opt := opt s; match_mode := match_mode s; quiet := quiet s;
     retcode := retcode s; gotone := gotone s; pkgversion := pkgversion s;
     pkgversion2 := pkgversion2 s; sign := sign s; sign2 := sign2 s;
     pkg_exists := pkg_exists s; origin_search := v;
     e_flag := e_flag s; file := file s; out := out s |}.
Definition set_e_flag v s :=
  {| argv := argv s; opt := opt s; match_mode := match_mode s; quiet := quiet s;
     retcode := retcode s; gotone := gotone s; pkgversion := pkgversion s;
     pkgversion2 := pkgversion2 s; sign := sign s; sign2 := sign2 s;
     pkg_exists := pkg_exists s; origin_search := origin_search s;
     e_flag := v; file := file s; out := out s |}.
Definition set_file v s :=
  {| argv := argv s; opt := opt s; match_mode := match_mode s; quiet := quiet s;
     retcode := retcode s; gotone := gotone s; pkgversion := pkgversion s;
     pkgversion2 := pkgversion2 s; sign := sign s; sign2 := sign2 s;
     pkg_exists := pkg_exists s; origin_search := origin_search s;
     e_flag := e_flag s; file := v; out := out s |}.
(** One more call reaches the outside. *)
Definition emit (e : event) s :=
  {| argv := argv s; opt := opt s; match_mode := match_mode s; quiet := quiet s;
     retcode := retcode s; gotone := gotone s; pkgversion := pkgversion s;
     pkgversion2 := pkgversion2 s; sign := sign s; sign2 := sign2 s;
     pkg_exists := pkg_exists s; origin_search := origin_search s;
     e_flag := e_flag s; file := file s; out := out s ++ [e] |}.

(** Either the function goes on in state [s], or it has returned [code]. *)
Inductive flow :=
  | Next (s : state)
  | Return (code : Z) (s : state).

Definition bind (f : flow) (k : state -> flow) : flow :=
  match f with
  | Next s => k s
  | Return c s => Return c s
  end.

(** ** C strings in the store *)

Definition NUL : ascii := Ascii.zero.

(** The string that starts at offset 0 of [b], up to its first NUL; the byte
    after the last one of [b] is the terminator. *)
Fixpoint cstr (b : list ascii) : list ascii :=
  match b with
  | [] => []
  | c :: b' => if decide (c = NUL) then [] else c :: cstr b'
  end.

Definition strlen (b : list ascii) : nat := length (cstr b).

(** strcspn(3): the length of the longest prefix without a byte of
    [reject]. *)
Fixpoint strcspn (s reject : list ascii) : nat :=
  match s with
  | [] => O
  | c :: s' => if decide (c ∈ reject) then O else S (strcspn s' reject)
  end.

(** The byte at offset [j] of string [i]. *)
Definition peek (i j : nat) (s : state) : ascii :=
  default NUL (default [] (argv s !! i) !! j).

Definition poke (i j : nat) (c : ascii) (s : state) : state :=
  set_argv (alter (fun b => <[j := c]> b) i (argv s)) s.

(** The C string a pointer designates. *)
Definition string_at (p : ptr) (s : state) : string :=
  string_of_list_ascii (cstr (drop p.2 (default [] (argv s !! p.1)))).

Definition buffer (i : nat) (s : state) : list ascii :=
  default [] (argv s !! i).

(** ** Option processing (the [getopt] loop) *)

(** What the command line is once getopt(3) has read it: the option
    characters it returns in turn, each with [optarg]; [optind] when it
    returns -1; the arguments left from there on.  [argc] counts them all.
    [quiet0] is the global [quiet] on entry. *)
Record invocation := {
  getopt_seq : list (ascii * string);
  optind : nat;
  args : list string;
  quiet0 : bool
}.

Definition argc_of (inv : invocation) : nat :=
  (optind inv + length (args inv))%nat.

Section Model.

Variable K : headers.
Variable w : world.

Definition opt_or (bit : Z) (s : state) : state :=
  set_opt (Z.lor (opt s) bit) s.

(** The [switch (ch)] of the option loop. *)
Definition getopt_case (ch : ascii) (optarg : string) (s : state) : flow :=
  match ch with
  | "a"%char => Next (set_match MATCH_ALL s)
  | "A"%char => Next (opt_or (INFO_ANNOTATIONS K) s)
  | "O"%char => Next (set_origin_search true s)
  | "e"%char => Next (set_retcode 1 (set_pkg_exists true s))
  | "g"%char => Next (set_match MATCH_GLOB s)
  | "i"%char => Next (emit (EvCaseSensitivity false) s)
  | "x"%char => Next (set_match MATCH_REGEX s)
  | "D"%char => Next (opt_or (INFO_MESSAGE K) s)
  | "d"%char => Next (opt_or (INFO_DEPS K) s)
  | "I"%char => Next (opt_or (INFO_COMMENT K) s)
  | "r"%char => Next (opt_or (INFO_RDEPS K) s)
  | "k"%char => Next (opt_or (INFO_LOCKED K) s)
  | "l"%char => Next (opt_or (INFO_FILES K) s)
  | "b"%char => Next (opt_or (INFO_SHLIBS_PROVIDED K) s)
  | "B"%char => Next (opt_or (INFO_SHLIBS_REQUIRED K) s)
  | "s"%char => Next (opt_or (INFO_FLATSIZE K) s)
  | "E"%char => Next (set_e_flag true s)
  | "q"%char => Next (set_quiet true s)
  | "o"%char => Next (opt_or (INFO_ORIGIN K) s)
  | "p"%char => Next (opt_or (INFO_PREFIX K) s)
  | "f"%char => Next (opt_or (INFO_FULL K) s)
  | "F"%char => Next (set_file (Some optarg) s)
  | "R"%char => Next (opt_or (INFO_RAW K) s)
  | _ => Return EX_USAGE (emit EvUsage s)
  end.

Fixpoint getopt_loop (l : list (ascii * string)) (s : state) : flow :=
  match l with
  | [] => Next s
  | (ch, optarg) :: l' => bind (getopt_case ch optarg s) (getopt_loop l')
  end.

(** ** Match mode and categories (from the end of the option loop to the
    file and database paths) *)

(** [if (argc == 1 || (argc == 2 && quiet)) match = MATCH_ALL;], with
    [argc] as on entry. *)
Definition force_all (argc0 : nat) (s : state) : state :=
  if decide (argc0 = 1%nat ∨ (argc0 = 2%nat ∧ quiet s = true))
  then set_match MATCH_ALL s else s.

(** The usage check and the three adjustments of the categories and of
    [quiet], with [argc] what is left after [argc -= optind]. *)
Definition select_categories (argc : nat) (s : state) : flow :=
  if decide (argc = O ∧ file s = None ∧ match_mode s ≠ MATCH_ALL) then
    if origin_search s then Return EX_OK s
    else Return EX_USAGE (emit EvUsage s)
  else
    let s := if decide (origin_search s = false ∧
                        Z.land (opt s) (INFO_ALL K) = 0%Z ∧
                        match_mode s = MATCH_ALL ∧ quiet s = false)
             then opt_or (INFO_COMMENT K) s else s in
    let s := if origin_search s then
               if quiet s then set_quiet false (set_opt (INFO_TAG_NAMEVER K) s)
               else set_opt (Z.lor (INFO_TAG_NAMEVER K) (INFO_COMMENT K)) s
             else s in
    let s := if decide (match_mode s = MATCH_ALL ∧ opt s = INFO_TAG_NAMEVER K)
             then set_quiet false s else s in
    Next s.

Definition select_mode (argc0 argc : nat) (s : state) : flow :=
  select_categories argc (force_all argc0 s).

(** [if (file != NULL) { ... }]: one package read from a file. *)
Definition file_mode (s : state) : flow :=
  match file s with
  | None => Next s
  | Some f =>
      let s := if decide (opt s = INFO_TAG_NAMEVER K)
               then opt_or (INFO_FULL K) s else s in
      let open_flags :=
        if decide (Z.land (opt s)
                     (Z.lor (Z.lor (INFO_RAW K) (INFO_FILES K)) (INFO_DIRS K))
                   = 0%Z)
        then PKG_OPEN_MANIFEST_COMPACT K else 0%Z in
      let s := emit (EvPkgOpen f open_flags) s in
      match pkg_open w f open_flags with
      | None => Return 1 s
      | Some p => Return 0 (emit (EvPrintInfo p (opt s) (quiet s)) s)
      end
  end.

(** [pkgdb_access] and [pkgdb_open]. *)
Definition db_mode (s : state) : flow :=
  let ret := pkgdb_access w in
  if decide (ret = EPKG_ENOACCESS) then
    Return EX_NOPERM
      (emit (EvWarnx "Insufficient privileges to query the package database") s)
  else if decide (ret = EPKG_ENODB) then
    if decide (match_mode s = MATCH_ALL) then Return EX_OK s
    else if origin_search s then Return EX_OK s
    else Return EX_UNAVAILABLE
           (if quiet s then s else emit (EvWarnx "No packages installed") s)
  else if decide (ret ≠ EPKG_OK) then Return EX_IOERR s
  else if decide (pkgdb_open w ≠ EPKG_OK) then Return EX_IOERR s
  else Next s.

(** ** The specifier scan *)

(** [pkgname[strlen(pkgname) - 1] == '/'].  For an empty string the C code
    reads the byte before the string, which is outside the store; in the
    layout of [argv] that byte is the terminator of the string before, so
    nothing is stripped. *)
Definition strip_slash (argc i : nat) (s : state) : state :=
  if decide (0 < argc)%nat then
    match strlen (buffer i s) with
    | O => s
    | S n => if decide (peek i n s = "/"%char) then poke i n NUL s else s
    end
  else s.

(** One of the three operator branches at offset [j]; [base] is the sign of
    the character, [upgraded] the one assigned when [=] follows.  Answers
    the new state and the new [j] (before the [j++] that ends the loop
    body).  With [pkgversion] already set, the second slot is filled, and
    the assignment after [=] is still to [sign]. *)
Definition split (base upgraded : enum_sign) (i j : nat) (s : state)
  : state * nat :=
  match pkgversion s with
  | Some _ =>
      let s := set_sign2 base s in
      let s := poke i j NUL s in
      if decide (peek i (S j) s = "="%char)
      then (set_sign upgraded (set_pkgversion2 (Some (i, S (S j))) s), S j)
      else (set_pkgversion2 (Some (i, S j)) s, j)
  | None =>
      let s := set_sign base s in
      let s := poke i j NUL s in
      if decide (peek i (S j) s = "="%char)
      then (set_sign upgraded (set_pkgversion (Some (i, S (S j))) s), S j)
      else (set_pkgversion (Some (i, S j)) s, j)
  end.

(** [while (pkgname[j] != '\0') { ... j++; }] over string [i]. *)
Fixpoint scan (fuel : nat) (i j : nat) (s : state) : state :=
  match fuel with
  | O => s
  | S fuel' =>
      let c := peek i j s in
      if decide (c = NUL) then s
      else
        let '(s', j') :=
          if decide (c = "<"%char) then split LT LE i j s
          else if decide (c = ">"%char) then split GT GE i j s
          else if decide (c = "="%char) then split EQ EQ i j s
          else (s, j) in
        scan fuel' i (S j') s'
  end.

(** Every iteration moves [j] forward and [j] never passes the terminator,
    so one more than the length of the string is fuel enough
    ([scan_fuel_enough] below). *)
Definition scan_specifier (i : nat) (s : state) : state :=
  scan (S (length (buffer i s))) i O s.

(** ** The constraint evaluator *)

(** The [switch] on the result of [pkg_version_cmp]: [true] when the branch
    taken runs [gotone = false; continue]. *)
Definition drops (c : Z) (sg : enum_sign) : bool :=
  if decide (c = (-1)%Z) then bool_decide (sg ≠ LT) && bool_decide (sg ≠ LE)
  else if decide (c = 0%Z) then
    bool_decide (sg ≠ LE) && bool_decide (sg ≠ GE) && bool_decide (sg ≠ EQ)
  else if decide (c = 1%Z) then bool_decide (sg ≠ GT) && bool_decide (sg ≠ GE)
  else false.

(** [true] when control reaches the line after both [switch]es. *)
Definition keeps (version : string) (s : state) : bool :=
  if match pkgversion s with
     | Some pv => drops (pkg_version_cmp w version (string_at pv s)) (sign s)
     | None => false
     end
  then false
  else if match pkgversion2 s with
          | Some pv =>
              drops (pkg_version_cmp w version (string_at pv s)) (sign2 s)
          | None => false
          end
  then false
  else true.

(** The body of the cursor loop for one record. *)
Definition candidate (p : pkg) (s : state) : state :=
  let s := set_gotone true s in
  if keeps (pkg_version p) s then
    if pkg_exists s then set_retcode EX_OK s
    else emit (EvPrintInfo p (opt s) (quiet s)) s
  else set_gotone false s.

(** [while ((ret = pkgdb_it_next(it, &pkg, query_flags)) == EPKG_OK)]. *)
Fixpoint it_loop (l : list pkg) (s : state) : state :=
  match l with
  | [] => s
  | p :: l' => it_loop l' (candidate p s)
  end.

(** ** One specifier, and all of them *)

Definition glob_chars : list ascii := list_ascii_of_string "*[]{}()".

(** The full output for a single argument without a glob character. *)
Definition disclose (argc i : nat) (s : state) : state :=
  if decide (argc = 1%nat ∧ origin_search s = false ∧ quiet s = false ∧
             e_flag s = false ∧ match_mode s = MATCH_GLOB ∧
             strcspn (cstr (buffer i s)) glob_chars = strlen (buffer i s) ∧
             opt s = INFO_TAG_NAMEVER K)
  then opt_or (INFO_FULL K) s else s.

(** [pkgname] as [pkgdb_query] and [warnx] read it; NULL when [argv[i]]
    is. *)
Definition pkgname (i : nat) (s : state) : option string :=
  (fun b => string_of_list_ascii (cstr b)) <$> (argv s !! i).

Definition newline : string := String "010"%char EmptyString.

(** What follows a successful [pkgdb_query] in the body of the
    [do ... while]: the compatibility seed, the disclosure, the cursor
    loop, the status after it, and [pkgdb_it_free]. *)
Definition iterate (argc i : nat) (it : pkgdb_it) (s : state) : state :=
  let s := if origin_search s then set_gotone true s else s in
  let s := disclose argc i s in
  let s := it_loop (it_pkgs it) s in
  let s := if decide (it_last it ≠ EPKG_END)
           then set_retcode EX_IOERR s else s in
  let s :=
    if decide (retcode s = EX_OK ∧ gotone s = false ∧
               match_mode s ≠ MATCH_ALL)
    then
      let s := if quiet s then s
               else emit (EvWarnx ("No package(s) matching " ++
                                   default EmptyString (pkgname i s))) s in
      set_retcode EX_SOFTWARE s
    else s in
  emit EvItFree s.

(** The body of the [do ... while] for [argv[i]]. *)
Definition spec_body (argc i : nat) (s : state) : flow :=
  let s := set_gotone false s in
  let s := strip_slash argc i s in
  let s := if decide (0 < argc)%nat then scan_specifier i s else s in
  if decide (match_mode s ≠ MATCH_ALL ∧ peek i O s = NUL) then
    Next (emit (EvStderr ("Pattern must not be empty." ++ newline)) s)
  else
    let s := emit (EvQuery (pkgname i s) (match_mode s)) s in
    match pkgdb_query w (pkgname i s) (match_mode s) with
    | None => Return EX_IOERR s
    | Some it => Next (iterate argc i it s)
    end.

(** [do { body; i++; } while (i < argc)], with [rest] the number of
    iterations still due after this one: [argc - 1 - i], and none for
    [argc = 0], where the body runs once. *)
Fixpoint do_while (argc rest i : nat) (s : state) : flow :=
  bind (spec_body argc i s)
       (fun s' => match rest with
                  | O => Next s'
                  | S rest' => do_while argc rest' (S i) s'
                  end).

Definition init (inv : invocation) : state :=
  {| argv := list_ascii_of_string <$> args inv;
     opt := INFO_TAG_NAMEVER K; match_mode := MATCH_GLOB;
     quiet := quiet0 inv; retcode := 0%Z; gotone := false;
     pkgversion := None; pkgversion2 := None; sign := LT; sign2 := LT;
     pkg_exists := false; origin_search := false; e_flag := false;
     file := None; out := [] |}.

Definition specifiers (argc : nat) (s : state) : flow :=
  do_while argc (argc - 1) O s.

(** From the file path on, in the state the option processing left. *)
Definition query_path (argc : nat) (s : state) : flow :=
  bind (bind (file_mode s) db_mode) (specifiers argc).

(** Everything before the [do ... while]. *)
Definition prologue (inv : invocation) : flow :=
  bind (bind (getopt_loop (getopt_seq inv) (init inv))
             (select_mode (argc_of inv) (length (args inv))))
       (fun s => bind (file_mode s) db_mode).

(** The value returned and what reached the outside. *)
Definition finish (f : flow) : Z * list event :=
  match f with
  | Next s => (retcode s, out s)
  | Return c s => (c, out s)
  end.

(** [exec_info]: the exit status and what reached the outside. *)
Definition exec_info (inv : invocation) : Z * list event :=
  finish (bind (bind (getopt_loop (getopt_seq inv) (init inv))
                     (select_mode (argc_of inv) (length (args inv))))
               (query_path (length (args inv)))).

End Model.

(** ** A sample installation *)

(** Modelled from the spec: the category bits of pkgcli.h, which is not
    among the sources: one bit for each category of the query options
    (comment, dependencies, files, ...), the name-version tag and the raw
    flag apart from them, [INFO_ALL] the mask of the category bits and
    [INFO_FULL] the categories of the full output. *)
Definition pkgcli_h : headers :=
  {| INFO_TAG_NAMEVER := Z.shiftl 1 62;
     INFO_ANNOTATIONS := Z.shiftl 1 15;
     INFO_MESSAGE := Z.shiftl 1 19;
     INFO_DEPS := Z.shiftl 1 20;
     INFO_COMMENT := Z.shiftl 1 11;
     INFO_RDEPS := Z.shiftl 1 21;
     INFO_LOCKED := Z.shiftl 1 27;
     INFO_FILES := Z.shiftl 1 22;
     INFO_DIRS := Z.shiftl 1 23;
     INFO_SHLIBS_PROVIDED := Z.shiftl 1 14;
     INFO_SHLIBS_REQUIRED := Z.shiftl 1 13;
     INFO_FLATSIZE := Z.shiftl 1 16;
     INFO_ORIGIN := Z.shiftl 1 3;
     INFO_PREFIX := Z.shiftl 1 5;
     INFO_FULL := Z.shiftl 1 19 - 1;
     INFO_RAW := Z.shiftl 1 63;
     INFO_ALL := Z.shiftl 1 28 - 1;
     PKG_OPEN_MANIFEST_COMPACT := 1 |}.

Definition foo_2_0 : pkg := {| pkg_name := "foo"; pkg_version := "2.0" |}.
Definition foobar_0_5 : pkg := {| pkg_name := "foobar"; pkg_version := "0.5" |}.

(** Modelled from the spec: the cursors of the database adapter
    ([pkgdb_query] of libpkg, which is not among the sources), for a
    database with [foo-2.0] and [foobar-0.5]; every cursor ends cleanly. *)
Definition sample_query (pattern : option string) (m : match_t)
  : option pkgdb_it :=
  let found :=
    if decide (m = MATCH_ALL) then [foo_2_0; foobar_0_5]
    else if decide (pattern = Some "foo"%string) then [foo_2_0]
    else if decide (pattern = Some "foobar"%string) then [foobar_0_5]
    else if decide (pattern = Some "foo*"%string) then [foo_2_0; foobar_0_5]
    else [] in
  Some {| it_pkgs := found; it_last := EPKG_END |}.

(** Modelled from the spec: the three-way comparison of versions
    ([pkg_version_cmp] of libpkg, which is not among the sources).  The
    order of the strings stands for the order of the versions; it is the
    same on the one-digit versions used here. *)
Definition sample_cmp (a b : string) : Z :=
  match String.compare a b with
  | Lt => (-1)%Z
  | Eq => 0%Z
  | Gt => 1%Z
  end.

Definition installed : world :=
  {| pkgdb_access := EPKG_OK;
     pkgdb_open := EPKG_OK;
     pkgdb_query := sample_query;
     pkg_version_cmp := sample_cmp;
     pkg_open := fun _ _ => None |}.

(** [pkg info <options> <arguments>], one option per word. *)
Definition command (opts : list ascii) (arguments : list string)
  : invocation :=
  {| getopt_seq := (fun c => (c, EmptyString)) <$> opts;
     optind := S (length opts);
     args := arguments;
     quiet0 := false |}.

(** ** The words of the specification, for comparison *)

(** Section 4.3 of the specification: a constraint [(op, bound)] keeps a
    candidate whose comparison with the bound is [c]. *)
Definition spec_keeps (c : Z) (op : enum_sign) : Prop :=
  (c = (-1)%Z -> op = LT ∨ op = LE) ∧
  (c = 0%Z -> op = LE ∨ op = GE ∨ op = EQ) ∧
  (c = 1%Z -> op = GT ∨ op = GE).

(** A string that is empty once a trailing slash is stripped. *)
Definition empty_after_strip (b : list ascii) : Prop :=
  cstr b = [] ∨ cstr b = ["/"%char].

(** A call of [print_info]. *)
Definition is_print (e : event) : Prop :=
  match e with EvPrintInfo _ _ _ => True | _ => False end.

(** ** The vocabulary of the statements *)

(** No byte of the string is an operator character. *)
Definition plain_buf (b : list ascii) : Prop :=
  Forall (fun c => c ≠ "<"%char ∧ c ≠ ">"%char ∧ c ≠ "="%char) b.

Definition not_print (e : event) : Prop := ~ is_print e.

(** What is written to stderr for an empty pattern. *)
Definition empty_msg : event :=
  EvStderr ("Pattern must not be empty." ++ newline).

(** Everything of the state but the strings, the two version pointers and
    the two signs. *)
Definition control (s : state) :=
  (opt s, match_mode s, quiet s, retcode s, gotone s,
   pkg_exists s, origin_search s, e_flag s, file s, out s).

Ltac fields H :=
  unfold control in H; injection H as ??????????.

(** The cursor loop writes [gotone], [retcode] and the output only. *)
Definition fixed (s : state) :=
  (argv s, opt s, match_mode s, quiet s, pkgversion s, pkgversion2 s,
   sign s, sign2 s, pkg_exists s, origin_search s, e_flag s, file s).

Ltac fixed_fields H :=
  unfold fixed in H; injection H as ????????????.

(** What the mode selection leaves alone. *)
Definition kept_by_mode (s : state) :=
  (argv s, retcode s, gotone s, pkgversion s, pkgversion2 s, sign s, sign2 s,
   pkg_exists s, origin_search s, e_flag s, file s, out s).

(** The state when the cursor loop of [iterate] is over. *)
Definition after_loop K w argc i it s : state :=
  it_loop w (it_pkgs it)
    (disclose K argc i (if origin_search s then set_gotone true s else s)).

(** The two states agree on all that the cursor loop leaves alone. *)
Definition same_fixed (s s' : state) : Prop :=
  argv s = argv s' /\ opt s = opt s' /\ match_mode s = match_mode s' /\
  quiet s = quiet s' /\ pkgversion s = pkgversion s' /\
  pkgversion2 s = pkgversion2 s' /\ sign s = sign s' /\ sign2 s = sign2 s' /\
  pkg_exists s = pkg_exists s' /\ origin_search s = origin_search s' /\
  e_flag s = e_flag s' /\ file s = file s'.

(** The modes that no specifier changes. *)
Definition modes (s : state) :=
  (match_mode s, quiet s, pkg_exists s, origin_search s, e_flag s, file s).

(** What holds from specifier to specifier under [-O], without [-e], on
    arguments without operator characters. *)
Definition origin_inv (s : state) : Prop :=
  origin_search s = true /\ pkg_exists s = false /\ retcode s = EX_OK /\
  pkgversion s = None /\ pkgversion2 s = None /\ Forall plain_buf (argv s).

(** An argument without an operator character. *)
Definition plain (a : string) : Prop := plain_buf (list_ascii_of_string a).

Arguments iterate : simpl never.
Arguments after_loop : simpl never.

(** ** The vocabulary of the further properties *)

(** The values [exec_info] returns. *)
Definition exit_codes : list Z :=
  [EX_OK; 1%Z; EX_USAGE; EX_UNAVAILABLE; EX_SOFTWARE; EX_IOERR; EX_NOPERM].

(** The option characters getopt returned. *)
Definition options (inv : invocation) : list ascii := (getopt_seq inv).*1.

(** What an event does to the cursors: [true] for a [pkgdb_query] that
    answers a cursor, [false] for [pkgdb_it_free]. *)
Definition cursor_event (w : world) (e : event) : option bool :=
  match e with
  | EvQuery pattern m =>
      match pkgdb_query w pattern m with
      | Some _ => Some true
      | None => None
      end
  | EvItFree => Some false
  | _ => None
  end.

Definition cursor_log (w : world) (l : list event) : list bool :=
  omap (cursor_event w) l.

(** An event that is neither a query nor the release of a cursor. *)
Definition no_cursor (e : event) : Prop :=
  match e with
  | EvQuery _ _ | EvItFree => False
  | _ => True
  end.

(** A call of [pkgdb_query]. *)
Definition is_query (e : event) : Prop :=
  match e with EvQuery _ _ => True | _ => False end.

(** The no-match warning. *)
Definition is_warnx (e : event) : Prop :=
  match e with EvWarnx _ => True | _ => False end.

(** Membership in a list that is written out. *)
Ltac pick_disjunct :=
  first [ done | congruence | left; pick_disjunct | right; pick_disjunct ].

Ltac list_mem :=
  unfold EX_OK, EX_USAGE, EX_UNAVAILABLE, EX_SOFTWARE, EX_IOERR, EX_NOPERM in *;
  rewrite ?elem_of_cons, ?elem_of_nil in *;
  repeat match goal with
         | H : _ \/ _ |- _ => destruct H
         | H : _ /\ _ |- _ => destruct H
         | H : False |- _ => destruct H
         end;
  pick_disjunct.

(** An operator character of a specifier. *)
Definition is_op (c : ascii) : Prop :=
  c = "<"%char \/ c = ">"%char \/ c = "="%char.

#[global] Instance is_op_dec c : Decision (is_op c).
Proof. unfold is_op. apply _. Defined.

(** The longest prefix of a string without the terminator or an operator
    character. *)
Fixpoint name_part (b : list ascii) : list ascii :=
  match b with
  | [] => []
  | c :: b' =>
      if decide (c = NUL \/ is_op c) then [] else c :: name_part b'
  end.

(** Bytes that are neither the terminator nor an operator character. *)
Definition word (b : list ascii) : Prop :=
  Forall (fun c => c ≠ NUL /\ ~ is_op c) b.

(** How each sign is written in a specifier. *)
Definition render_sign (sg : enum_sign) : list ascii :=
  match sg with
  | LT => ["<"%char]
  | LE => ["<"%char; "="%char]
  | GT => [">"%char]
  | GE => [">"%char; "="%char]
  | EQ => ["="%char]
  end.

(** The two signs of the branch of the scan that an operator character
    takes. *)
Definition branch_of (c : ascii) : enum_sign * enum_sign :=
  if decide (c = "<"%char) then (LT, LE)
  else if decide (c = ">"%char) then (GT, GE)
  else (EQ, EQ).

(** * The event layer of libpkg (pkg_event.c)

    Every event is handed to the plugin hook, then to the callback that
    the front end registered, then written as one line of JSON to the
    event pipe.  The model keeps the order of these effects in a trace of
    [action]s.

    [PKG_EVENT_ERRNO] and [PKG_EVENT_PLUGIN_ERRNO] are not part of the
    model: their case passes three results of [sbuf_json_escape] on the
    same buffer to one [sbuf_printf], so the line depends on the order in
    which the arguments are evaluated and on whether the buffer moves. *)

Definition dquote : ascii := "034"%char.
Definition backslash : ascii := "092"%char.
Definition LF : ascii := "010"%char.

(** A C string literal.  The literals of pkg_event.c hold no apostrophe;
    here an apostrophe stands for the double quote that the C source
    writes as backslash, double quote. *)
Definition lit (s : string) : list ascii :=
  (fun c => if decide (c = "'"%char) then dquote else c)
    <$> list_ascii_of_string s.

(** ** sbuf(9), for a buffer made by [sbuf_new_auto]: the bytes written so
    far.  [sbuf_setpos] refuses a position outside the written bytes. *)
Definition sbuf := list ascii.

Definition sbuf_clear (b : sbuf) : sbuf := [].
Definition sbuf_putc (b : sbuf) (c : ascii) : sbuf := b ++ [c].
Definition sbuf_cat (b : sbuf) (s : string) : sbuf := b ++ lit s.
Definition sbuf_len (b : sbuf) : Z := Z.of_nat (length b).
Definition sbuf_setpos (b : sbuf) (pos : Z) : sbuf :=
  if decide (0 <= pos <= sbuf_len b)%Z then take (Z.to_nat pos) b else b.

(** ** Formatted output.  A format is copied byte by byte; [%] followed by
    a conversion character takes the next argument. *)
Inductive farg := FStr (s : list ascii) | FInt (z : Z) | FPkg (p : pkg).

Fixpoint format (conv : ascii -> option farg -> list ascii)
    (f : list ascii) (args : list farg) : list ascii :=
  match f with
  | [] => []
  | c :: f' =>
      if decide (c = "%"%char) then
        match f' with
        | k :: f'' =>
            match args with
            | a :: args' => conv k (Some a) ++ format conv f'' args'
            | [] => conv k None ++ format conv f'' []
            end
        | [] => []
        end
      else c :: format conv f' args
  end.

(** printf(3): [%s] writes a C string up to its terminator, [%d] (and the
    [PRId64] conversion, written [%d] in the formats below) a decimal
    number. *)
Definition conv_printf (k : ascii) (a : option farg) : list ascii :=
  match k, a with
  | "s"%char, Some (FStr s) => cstr s
  | "d"%char, Some (FInt z) => list_ascii_of_string (pretty z)
  | _, _ => []
  end.

Definition sbuf_printf (b : sbuf) (f : string) (args : list farg) : sbuf :=
  b ++ format conv_printf (lit f) args.

Inductive pkg_change_t := PKG_DOWNGRADE | PKG_REINSTALL | PKG_UPGRADE.

Record pkg_dep := { pkg_dep_name : list ascii; pkg_dep_version : list ascii }.

(** What this file asks of the rest of libpkg: the text that
    [pkg_sbuf_printf] writes for the conversions [%n], [%v], [%V] of a
    package and [%S] of a string, the message and the old version that
    [pkg_get] reads, the dependencies that successive calls of [pkg_rdeps]
    answer, and [pkg_version_change]. *)
Record libpkg := {
  fmt_n : pkg -> list ascii;
  fmt_v : pkg -> list ascii;
  fmt_V : pkg -> list ascii;
  fmt_S : list ascii -> list ascii;
  PKG_MESSAGE : pkg -> option (list ascii);
  PKG_OLD_VERSION : pkg -> option (list ascii);
  pkg_rdeps : pkg -> list pkg_dep;
  pkg_version_change : pkg -> pkg_change_t
}.

Definition conv_pkg (L : libpkg) (k : ascii) (a : option farg) : list ascii :=
  match k, a with
  | "n"%char, Some (FPkg p) => fmt_n L p
  | "v"%char, Some (FPkg p) => fmt_v L p
  | "V"%char, Some (FPkg p) => fmt_V L p
  | "S"%char, Some (FStr s) => fmt_S L s
  | _, _ => []
  end.

Definition pkg_sbuf_printf (L : libpkg) (b : sbuf) (f : string)
    (args : list farg) : sbuf :=
  b ++ format (conv_pkg L) (lit f) args.

(** ** [sbuf_json_escape].  [None] is the NULL pointer. *)
Fixpoint json_escape_loop (str : list ascii) (buf : sbuf) : sbuf :=
  match str with
  | [] => buf
  | c :: str' =>
      if decide (c = NUL) then buf
      else
        let buf1 :=
          if decide (c = dquote \/ c = backslash)
          then sbuf_putc buf backslash else buf in
        json_escape_loop str' (sbuf_putc buf1 c)
  end.

Definition sbuf_json_escape (buf : sbuf) (str : option (list ascii))
    : list ascii :=
  match str with
  | None => sbuf_clear buf
  | Some l => json_escape_loop l (sbuf_clear buf)
  end.

(** ** Events *)

(** [struct pkg_event_conflict], the linked list as a list. *)
Record pkg_event_conflict := {
  conflict_name : list ascii;
  conflict_version : list ascii;
  conflict_origin : list ascii
}.

Record pkg_plugin := { PKG_PLUGIN_NAME : list ascii }.
Record pkg_file := { pkg_file_path : list ascii }.

(** [struct pkg_event]: the type tag with the member of the union that
    goes with it.  A string that [pipeevent] escapes may be NULL. *)
Inductive pkg_event :=
  | PKG_EVENT_ERROR (msg : option (list ascii))
  | PKG_EVENT_NOTICE (msg : option (list ascii))
  | PKG_EVENT_DEVELOPER_MODE (msg : option (list ascii))
  | PKG_EVENT_FETCHING (url : option (list ascii)) (total done elapsed : Z)
  | PKG_EVENT_INSTALL_BEGIN (p : pkg)
  | PKG_EVENT_INSTALL_FINISHED (p : pkg)
  | PKG_EVENT_INTEGRITYCHECK_BEGIN
  | PKG_EVENT_INTEGRITYCHECK_CONFLICT
      (name version origin path : list ascii)
      (conflicts : list pkg_event_conflict)
  | PKG_EVENT_INTEGRITYCHECK_FINISHED
  | PKG_EVENT_DEINSTALL_BEGIN (p : pkg)
  | PKG_EVENT_DEINSTALL_FINISHED (p : pkg)
  | PKG_EVENT_UPGRADE_BEGIN (p : pkg)
  | PKG_EVENT_UPGRADE_FINISHED (p : pkg)
  | PKG_EVENT_LOCKED (p : pkg)
  | PKG_EVENT_REQUIRED (p : pkg) (force : Z)
  | PKG_EVENT_ALREADY_INSTALLED (p : pkg)
  | PKG_EVENT_MISSING_DEP (p : pkg) (dep : pkg_dep)
  | PKG_EVENT_NOREMOTEDB (repo : list ascii)
  | PKG_EVENT_NOLOCALDB
  | PKG_EVENT_NEWPKGVERSION
  | PKG_EVENT_FILE_MISMATCH (p : pkg) (file : pkg_file) (newsum : list ascii)
  | PKG_EVENT_PLUGIN_ERROR (plugin : pkg_plugin) (msg : option (list ascii))
  | PKG_EVENT_PLUGIN_INFO (plugin : pkg_plugin) (msg : option (list ascii))
  | PKG_EVENT_NOT_FOUND (name : list ascii)
  | PKG_EVENT_INCREMENTAL_UPDATE (updated removed added processed : Z)
  | PKG_EVENT_DEBUG (level : Z) (msg : list ascii).

(** The loop over the conflicts: a comma after every item but the last. *)
Fixpoint conflict_loop (msg : sbuf) (cur_conflict : list pkg_event_conflict)
    : sbuf :=
  match cur_conflict with
  | [] => msg
  | c :: next =>
      match next with
      | _ :: _ =>
          conflict_loop
            (sbuf_printf msg "{'name':'%s','version':'%s','origin':'%s'},"
               [FStr (conflict_name c); FStr (conflict_version c);
                FStr (conflict_origin c)])
            next
      | [] =>
          sbuf_printf msg "{'name':'%s','version':'%s','origin':'%s'}"
            [FStr (conflict_name c); FStr (conflict_version c);
             FStr (conflict_origin c)]
      end
  end.

(** The loop over [pkg_rdeps]. *)
Definition rdeps_loop (msg : sbuf) (deps : list pkg_dep) : sbuf :=
  foldl (fun msg dep =>
           sbuf_printf msg "{ 'pkgname': '%s', 'pkgversion': '%s' }, "
             [FStr (pkg_dep_name dep); FStr (pkg_dep_version dep)])
        msg deps.

Definition required_header (L : libpkg) (p : pkg) (force : Z) : sbuf :=
  pkg_sbuf_printf L []
    "{ 'type': 'ERROR_REQUIRED', 'data': { 'pkgname': '%n', 'pkgversion': '%v', 'force': %S, 'required_by': ["
    [FPkg p; FPkg p;
     FStr (lit (if decide (force = 1%Z) then "true" else "false"))].

Definition conflict_header (name version origin path : list ascii) : sbuf :=
  sbuf_printf []
    "{ 'type': 'INFO_INTEGRITYCHECK_CONFLICT','data': { 'pkgname': '%s', 'pkgversion': '%s', 'pkgorigin': '%s', 'pkgpath': '%s', 'conflicts': ["
    [FStr name; FStr version; FStr origin; FStr path].

(** The switch of [pipeevent]: the content of [msg] when it is written. *)
Definition pipeevent_msg (L : libpkg) (ev : pkg_event) : sbuf :=
  let msg : sbuf := [] in
  let buf : sbuf := [] in
  match ev with
  | PKG_EVENT_ERROR m =>
      sbuf_printf msg "{ 'type': 'ERROR', 'data': {'msg': '%s'}}"
        [FStr (sbuf_json_escape buf m)]
  | PKG_EVENT_NOTICE m =>
      sbuf_printf msg "{ 'type': 'NOTICE', 'data': {'msg': '%s'}}"
        [FStr (sbuf_json_escape buf m)]
  | PKG_EVENT_DEVELOPER_MODE m =>
      sbuf_printf msg
        "{ 'type': 'ERROR', 'data': {'msg': 'DEVELOPER_MODE: %s'}}"
        [FStr (sbuf_json_escape buf m)]
  | PKG_EVENT_FETCHING url total done _ =>
      sbuf_printf msg
        "{ 'type': 'INFO_FETCH', 'data': { 'url': '%s', 'fetched': %d, 'total': %d}}"
        [FStr (sbuf_json_escape buf url); FInt done; FInt total]
  | PKG_EVENT_INSTALL_BEGIN p =>
      pkg_sbuf_printf L msg
        "{ 'type': 'INFO_INSTALL_BEGIN', 'data': { 'pkgname': '%n', 'pkgversion': '%v'}}"
        [FPkg p; FPkg p]
  | PKG_EVENT_INSTALL_FINISHED p =>
      let message := PKG_MESSAGE L p in
      pkg_sbuf_printf L msg
        "{ 'type': 'INFO_INSTALL_FINISHED', 'data': { 'pkgname': '%n', 'pkgversion': '%v', 'message': '%S'}}"
        [FPkg p; FPkg p; FStr (sbuf_json_escape buf message)]
  | PKG_EVENT_INTEGRITYCHECK_BEGIN =>
      sbuf_printf msg
        "{ 'type': 'INFO_INTEGRITYCHECK_BEGIN', 'data': {}}" []
  | PKG_EVENT_INTEGRITYCHECK_CONFLICT n v o pa conflicts =>
      sbuf_cat (conflict_loop (msg ++ conflict_header n v o pa) conflicts)
        "]}}"
  | PKG_EVENT_INTEGRITYCHECK_FINISHED =>
      sbuf_printf msg
        "{ 'type': 'INFO_INTEGRITYCHECK_FINISHED', 'data': {}}" []
  | PKG_EVENT_DEINSTALL_BEGIN p =>
      pkg_sbuf_printf L msg
        "{ 'type': 'INFO_DEINSTALL_BEGIN', 'data': { 'pkgname': '%n', 'pkgversion': '%v'}}"
        [FPkg p; FPkg p]
  | PKG_EVENT_DEINSTALL_FINISHED p =>
      pkg_sbuf_printf L msg
        "{ 'type': 'INFO_DEINSTALL_FINISHED', 'data': { 'pkgname': '%n', 'pkgversion': '%v'}}"
        [FPkg p; FPkg p]
  | PKG_EVENT_UPGRADE_BEGIN p =>
      pkg_sbuf_printf L msg
        "{ 'type': 'INFO_UPGRADE_BEGIN', 'data': { 'pkgname': '%n', 'pkgversion': '%V' ,'pkgnewversion': '%v'}}"
        [FPkg p; FPkg p; FPkg p]
  | PKG_EVENT_UPGRADE_FINISHED p =>
      pkg_sbuf_printf L msg
        "{ 'type': 'INFO_UPGRADE_FINISHED', 'data': { 'pkgname': '%n', 'pkgversion': '%V' ,'pkgnewversion': '%v'}}"
        [FPkg p; FPkg p; FPkg p]
  | PKG_EVENT_LOCKED p =>
      pkg_sbuf_printf L msg
        "{ 'type': 'ERROR_LOCKED', 'data': { 'pkgname': '%n', 'pkgversion': '%n'}}"
        [FPkg p; FPkg p]
  | PKG_EVENT_REQUIRED p force =>
      let msg1 := rdeps_loop (msg ++ required_header L p force)
                    (pkg_rdeps L p) in
      sbuf_cat (sbuf_setpos msg1 (sbuf_len msg1 - 2)) "]}}"
  | PKG_EVENT_ALREADY_INSTALLED p =>
      pkg_sbuf_printf L msg
        "{ 'type': 'ERROR_ALREADY_INSTALLED', 'data': { 'pkgname': '%n', 'pkgversion': '%v'}}"
        [FPkg p; FPkg p]
  | PKG_EVENT_MISSING_DEP _ dep =>
      sbuf_printf msg
        "{ 'type': 'ERROR_MISSING_DEP', 'data': { 'depname': '%s', 'depversion': '%s'}}"
        [FStr (pkg_dep_name dep); FStr (pkg_dep_version dep)]
  | PKG_EVENT_NOREMOTEDB repo =>
      sbuf_printf msg
        "{ 'type': 'ERROR_NOREMOTEDB', 'data': { 'url': '%s' }}"
        [FStr repo]
  | PKG_EVENT_NOLOCALDB =>
      sbuf_printf msg "{ 'type': 'ERROR_NOLOCALDB', 'data': {} " []
  | PKG_EVENT_NEWPKGVERSION =>
      sbuf_printf msg "{ 'type': 'INFO_NEWPKGVERSION', 'data': {} " []
  | PKG_EVENT_FILE_MISMATCH p file _ =>
      pkg_sbuf_printf L msg
        "{ 'type': 'ERROR_FILE_MISMATCH', 'data': { 'pkgname': '%n', 'pkgversion': '%v', 'path': '%S'}}"
        [FPkg p; FPkg p;
         FStr (sbuf_json_escape buf (Some (pkg_file_path file)))]
  | PKG_EVENT_PLUGIN_ERROR plugin m =>
      sbuf_printf msg
        "{ 'type': 'ERROR_PLUGIN', 'data': {'plugin': '%s', 'msg': '%s'}}"
        [FStr (PKG_PLUGIN_NAME plugin); FStr (sbuf_json_escape buf m)]
  | PKG_EVENT_PLUGIN_INFO plugin m =>
      sbuf_printf msg
        "{ 'type': 'INFO_PLUGIN', 'data': {'plugin': '%s', 'msg': '%s'}}"
        [FStr (PKG_PLUGIN_NAME plugin); FStr (sbuf_json_escape buf m)]
  | PKG_EVENT_INCREMENTAL_UPDATE updated removed added processed =>
      sbuf_printf msg
        "{ 'type': 'INFO_INCREMENTAL_UPDATE', 'data': {'updated': %d, 'removed': %d, 'added': %d, 'processed': %d}}"
        [FInt updated; FInt removed; FInt added; FInt processed]
  | PKG_EVENT_NOT_FOUND _ | PKG_EVENT_DEBUG _ _ => msg
  end.

(** The configuration and the globals that the file reads, and the two
    that it owns. *)
Record config := {
  eventpipe : Z;
  PKG_CONFIG_SYSLOG : bool;
  PKG_CONFIG_DEBUG_LEVEL : Z
}.

Record registration := { _cb : option nat; _data : nat }.

Inductive action :=
  | HookRun (ev : pkg_event)
  | Callback (cb data : nat) (ev : pkg_event)
  | Dprintf (fd : Z) (text : list ascii)
  | Syslog (text : list ascii).

Definition dprintf (fd : Z) (f : list ascii) (args : list farg) : action :=
  Dprintf fd (format conv_printf f args).


Definition pipeevent (C : config) (L : libpkg) (ev : pkg_event)
    : list action :=
  if decide (eventpipe C < 0)%Z then []
  else [dprintf (eventpipe C) (lit "%s" ++ [LF]) [FStr (pipeevent_msg L ev)]].


Definition pkg_emit_event (C : config) (L : libpkg) (R : registration)
    (ev : pkg_event) : list action :=
  [HookRun ev]
  ++ match _cb R with
     | Some cb => [Callback cb (_data R) ev]
     | None => []
     end
  ++ pipeevent C L ev.

(** The public emitters.  Those with a format take the text that
    [vasprintf] made of it. *)
Section Emitters.
Variables (C : config) (L : libpkg) (R : registration).









Definition pkg_debug (level : Z) (msg : list ascii) :=
  let expectlevel := PKG_CONFIG_DEBUG_LEVEL C in
  if decide (expectlevel < level)%Z then []
  else pkg_emit_event C L R (PKG_EVENT_DEBUG level msg).
End Emitters.





(** ** Vocabulary of the properties of the event layer *)

(** A reader of a JSON string from behind its opening quote: a backslash
    takes the next byte as it is, a quote ends the string.  It answers
    the string and what follows the closing quote. *)
Fixpoint read_json_string (l : list ascii)
    : option (list ascii * list ascii) :=
  match l with
  | [] => None
  | c :: l' =>
      if decide (c = dquote) then Some ([], l')
      else if decide (c = backslash) then
        match l' with
        | [] => None
        | e :: l'' =>
            match read_json_string l'' with
            | Some (s, rest) => Some (e :: s, rest)
            | None => None
            end
        end
      else
        match read_json_string l' with
        | Some (s, rest) => Some (c :: s, rest)
        | None => None
        end
  end.

(** The bytes [c] of a list. *)
Definition occurrences (c : ascii) (l : list ascii) : nat :=
  length (filter (fun x => x = c) l).

(** Items with a separator between them. *)
Fixpoint join (sep : list ascii) (items : list (list ascii)) : list ascii :=
  match items with
  | [] => []
  | [x] => x
  | x :: items' => x ++ sep ++ join sep items'
  end.

(** The parts of a trace. *)
Definition hooked (tr : list action) : list pkg_event :=
  omap (fun a => match a with HookRun ev => Some ev | _ => None end) tr.

Definition called_back (tr : list action) : list (nat * nat * pkg_event) :=
  omap (fun a => match a with
                 | Callback cb data ev => Some (cb, data, ev)
                 | _ => None
                 end) tr.

Definition piped (tr : list action) : list (Z * list ascii) :=
  omap (fun a => match a with
                 | Dprintf fd text => Some (fd, text)
                 | _ => None
                 end) tr.

(** One dependency and one conflict, as the lists of [pipeevent] show
    them. *)
Definition dep_item (d : pkg_dep) : list ascii :=
  lit "{ 'pkgname': '" ++ cstr (pkg_dep_name d)
  ++ lit "', 'pkgversion': '" ++ cstr (pkg_dep_version d) ++ lit "' }".

Definition conflict_item (c : pkg_event_conflict) : list ascii :=
  lit "{'name':'" ++ cstr (conflict_name c)
  ++ lit "','version':'" ++ cstr (conflict_version c)
  ++ lit "','origin':'" ++ cstr (conflict_origin c) ++ lit "'}".

(** The event kinds for which the switch of [pipeevent] has no case. *)
Definition no_case (ev : pkg_event) : Prop :=
  match ev with
  | PKG_EVENT_NOT_FOUND _ | PKG_EVENT_DEBUG _ _ => True
  | _ => False
  end.

#[global] Instance no_case_dec ev : Decision (no_case ev).
Proof. destruct ev; apply _. Defined.

(** A sample: the conversions of a package are its name and its version,
    no old version, no message, and nothing depends on it; the pipe is
    descriptor 3. *)
Definition sample_libpkg : libpkg :=
  {| fmt_n := fun p => list_ascii_of_string (pkg_name p);
     fmt_v := fun p => list_ascii_of_string (pkg_version p);
     fmt_V := fun _ => [];
     fmt_S := fun s => s;
     PKG_MESSAGE := fun _ => None;
     PKG_OLD_VERSION := fun _ => None;
     pkg_rdeps := fun _ => [];
     pkg_version_change := fun _ => PKG_UPGRADE |}.

Definition sample_config : config :=
  {| eventpipe := 3; PKG_CONFIG_SYSLOG := false; PKG_CONFIG_DEBUG_LEVEL := 1 |}.

Arguments pipeevent_msg : simpl never.

(** * Properties *)

(** ** The constraint evaluator *)

Lemma drops_false_iff (c : Z) (sg : enum_sign) :
  drops c sg = false <-> spec_keeps c sg.
Proof.
  unfold drops, spec_keeps.
  destruct (decide (c = (-1)%Z)) as [->|?];
    [| destruct (decide (c = 0%Z)) as [->|?];
       [| destruct (decide (c = 1%Z)) as [->|?] ] ];
    destruct sg; simpl; split; intros H; try done;
    try (repeat split; intros; try lia; eauto; done);
    destruct H as (H1 & H2 & H3);
    first [ destruct H1 as [?|?]; done
          | destruct H2 as [?|[?|?]]; done
          | destruct H3 as [?|?]; done ].
Qed.

(** C4. A candidate of version [version] reaches the end of the two
    [switch]es exactly when each constraint that is present keeps it on its
    own, where a constraint keeps it as section 4.3 says: a comparison
    result of -1 asks for [LT] or [LE], 0 for [LE], [GE] or [EQ], and +1
    for [GT] or [GE]. *)
Theorem keeps_iff_each_constraint (w : world) (version : string) (s : state) :
  keeps w version s = true <->
  (forall pv, pkgversion s = Some pv ->
     spec_keeps (pkg_version_cmp w version (string_at pv s)) (sign s)) /\
  (forall pv, pkgversion2 s = Some pv ->
     spec_keeps (pkg_version_cmp w version (string_at pv s)) (sign2 s)).
Proof.
  unfold keeps. split.
  - intros H; split; intros pv E; rewrite E in H; apply drops_false_iff.
    + by destruct (drops _ (sign s)).
    + destruct (pkgversion s); [destruct (drops _ (sign s)); [done|] |];
        by destruct (drops _ (sign2 s)).
  - intros [H1 H2].
    destruct (pkgversion s) as [pv1|].
    + specialize (H1 pv1 eq_refl). apply drops_false_iff in H1. rewrite H1.
      destruct (pkgversion2 s) as [pv2|]; [|done].
      specialize (H2 pv2 eq_refl). apply drops_false_iff in H2.
      by rewrite H2.
    + destruct (pkgversion2 s) as [pv2|]; [|done].
      specialize (H2 pv2 eq_refl). apply drops_false_iff in H2.
      by rewrite H2.
Qed.

(** A record that is not kept leaves nothing but [gotone = false]; one that
    is kept is printed, or under [-e] sets the status. *)
Lemma candidate_dropped (w : world) (p : pkg) (s : state) :
  keeps w (pkg_version p) s = false ->
  candidate w p s = set_gotone false s.
Proof.
  intros H. unfold candidate.
  replace (keeps w (pkg_version p) (set_gotone true s))
    with (keeps w (pkg_version p) s) by done.
  rewrite H. by destruct s.
Qed.

(** ** The specifier scan *)

(** C2. The specifier [pkg>1.0<=2.0]: the scan fills the second slot with
    [(LT, "2.0")], and the [=] after [<] changes the operator of the first
    slot from [GT] to [LE]. *)
Theorem scan_second_upgrade_assigns_sign :
  let s := scan_specifier 0
             (strip_slash 1 0 (init pkgcli_h (command [] ["pkg>1.0<=2.0"%string]))) in
  pkgname 0 s = Some "pkg"%string /\
  sign s = LE /\
  (fun p => string_at p s) <$> pkgversion s = Some "1.0"%string /\
  sign2 s = LT /\
  (fun p => string_at p s) <$> pkgversion2 s = Some "2.0"%string.
Proof. vm_compute. done. Qed.

(** The first slot, for comparison: [pkg<=2.0] gives [(LE, "2.0")]. *)
Example scan_first_upgrade :
  let s := scan_specifier 0
             (strip_slash 1 0 (init pkgcli_h (command [] ["pkg<=2.0"%string]))) in
  pkgname 0 s = Some "pkg"%string /\
  sign s = LE /\
  (fun p => string_at p s) <$> pkgversion s = Some "2.0"%string /\
  pkgversion2 s = None.
Proof. vm_compute. done. Qed.

(** In the second slot the sign of the character goes to [sign2] and stays
    there, for every operator and every state: the sign after [=] goes to
    [sign]. *)
Lemma split_second_slot base upgraded i j s pv :
  pkgversion s = Some pv ->
  sign2 (split base upgraded i j s).1 = base.
Proof.
  intros H. unfold split. rewrite H. by case_decide.
Qed.

(** ** The "got one" flag *)

(** After the cursor loop the flag tells whether the last record was
    kept. *)
Lemma keeps_candidate_frame (w : world) (v : string) (p : pkg) (s : state) :
  keeps w v (candidate w p s) = keeps w v s.
Proof.
  unfold candidate. repeat case_match; done.
Qed.

Lemma keeps_it_loop_frame (w : world) (v : string) (l : list pkg) (s : state) :
  keeps w v (it_loop w l s) = keeps w v s.
Proof.
  revert s. induction l as [|p l IH]; intros s; simpl; [done|].
  by rewrite IH, keeps_candidate_frame.
Qed.

Lemma gotone_candidate (w : world) (p : pkg) (s : state) :
  gotone (candidate w p s) = keeps w (pkg_version p) s.
Proof.
  unfold candidate.
  replace (keeps w (pkg_version p) (set_gotone true s))
    with (keeps w (pkg_version p) s) by done.
  destruct (keeps w (pkg_version p) s); [by case_match | done].
Qed.

Lemma gotone_it_loop_last (w : world) (l : list pkg) (p : pkg) (s : state) :
  gotone (it_loop w (l ++ [p]) s) = keeps w (pkg_version p) s.
Proof.
  revert s. induction l as [|q l IH]; intros s; simpl.
  - apply gotone_candidate.
  - by rewrite IH, keeps_candidate_frame.
Qed.

(** C3. [pkg info 'foo*>1.0'] on a database where [foo-2.0] comes before
    [foobar-0.5]: the first record is kept and printed, the second is
    dropped and takes the flag back, so the specifier is reported as
    matching nothing and the status is the software-error code. *)
Theorem later_drop_takes_gotone_back :
  let s := scan_specifier 0
             (strip_slash 1 0 (init pkgcli_h (command [] ["foo*>1.0"%string]))) in
  keeps installed (pkg_version foo_2_0) s = true /\
  keeps installed (pkg_version foobar_0_5) s = false /\
  gotone (it_loop installed [foo_2_0; foobar_0_5] s) = false /\
  exec_info pkgcli_h installed (command [] ["foo*>1.0"%string]) =
    (EX_SOFTWARE,
     [EvQuery (Some "foo*"%string) MATCH_GLOB;
      EvPrintInfo foo_2_0 (INFO_TAG_NAMEVER pkgcli_h) false;
      EvWarnx "No package(s) matching foo*";
      EvItFree]).
Proof. vm_compute. done. Qed.

(** ** What the scan leaves alone *)

Lemma control_strip_slash argc i s : control (strip_slash argc i s) = control s.
Proof. unfold strip_slash. repeat case_match; done. Qed.

Lemma control_split base upgraded i j s :
  control (split base upgraded i j s).1 = control s.
Proof. unfold split. repeat case_match; done. Qed.

Lemma control_scan fuel i j s : control (scan fuel i j s) = control s.
Proof.
  revert j s. induction fuel as [|fuel IH]; intros j s; simpl; [done|].
  case_decide; [done|].
  repeat case_decide.
  - destruct (split LT LE i j s) as [s' j'] eqn:E. rewrite IH.
    change s' with (s', j').1. rewrite <- E. apply control_split.
  - destruct (split GT GE i j s) as [s' j'] eqn:E. rewrite IH.
    change s' with (s', j').1. rewrite <- E. apply control_split.
  - destruct (split EQ EQ i j s) as [s' j'] eqn:E. rewrite IH.
    change s' with (s', j').1. rewrite <- E. apply control_split.
  - apply IH.
Qed.

Lemma control_scan_specifier i s : control (scan_specifier i s) = control s.
Proof. apply control_scan. Qed.

(** The strings keep their lengths, and the others are not touched. *)
Lemma buffer_poke_length i j c s k :
  length (buffer k (poke i j c s)) = length (buffer k s).
Proof.
  unfold buffer, poke; simpl.
  destruct (decide (i = k)) as [->|Hne].
  - rewrite list_lookup_alter_eq.
    destruct (argv s !! k); simpl; [by rewrite length_insert | done].
  - by rewrite list_lookup_alter_ne.
Qed.

Lemma buffer_poke_ne i j c s k : i ≠ k -> buffer k (poke i j c s) = buffer k s.
Proof.
  intros Hne. unfold buffer, poke; simpl. by rewrite list_lookup_alter_ne.
Qed.

Lemma split_length base upgraded i j s k :
  length (buffer k (split base upgraded i j s).1) = length (buffer k s).
Proof.
  unfold split. repeat case_match; simpl;
    match goal with
    | |- length (buffer k ?t) = _ =>
        change (buffer k t) with (buffer k (poke i j NUL s))
    end; apply buffer_poke_length.
Qed.

Lemma peek_out_of_range i j s :
  (length (buffer i s) <= j)%nat -> peek i j s = NUL.
Proof.
  intros H. unfold peek. fold (buffer i s).
  by rewrite lookup_ge_None_2.
Qed.

Lemma split_advance base upgraded i j s :
  (j <= (split base upgraded i j s).2)%nat.
Proof. unfold split. repeat case_match; simpl; lia. Qed.

(** Every iteration moves [j] forward, and past the end of the string the
    byte read is the terminator: once the fuel exceeds what is left of the
    string, more fuel changes nothing. *)
Lemma scan_fuel_enough f g i j s :
  (length (buffer i s) < j + f)%nat -> (f <= g)%nat ->
  scan g i j s = scan f i j s.
Proof.
  revert g j s. induction f as [|f IH]; intros g j s Hlen Hfg.
  - assert (peek i j s = NUL) as Hp by (apply peek_out_of_range; lia).
    destruct g as [|g]; simpl; [done|]. by rewrite decide_True.
  - destruct g as [|g]; [lia|]. simpl.
    case_decide; [done|].
    assert (forall base upgraded,
              scan g i (S (split base upgraded i j s).2)
                       (split base upgraded i j s).1 =
              scan f i (S (split base upgraded i j s).2)
                       (split base upgraded i j s).1) as Hs.
    { intros base upgraded. apply IH; [|lia].
      rewrite split_length.
      pose proof (split_advance base upgraded i j s). lia. }
    repeat case_decide.
    + specialize (Hs LT LE). by destruct (split LT LE i j s).
    + specialize (Hs GT GE). by destruct (split GT GE i j s).
    + specialize (Hs EQ EQ). by destruct (split EQ EQ i j s).
    + apply IH; lia.
Qed.

(** ** What the cursor loop leaves alone *)

Lemma fixed_candidate w p s : fixed (candidate w p s) = fixed s.
Proof. unfold candidate. repeat case_match; done. Qed.

Lemma fixed_it_loop w l s : fixed (it_loop w l s) = fixed s.
Proof.
  revert s. induction l as [|p l IH]; intros s; simpl; [done|].
  by rewrite IH, fixed_candidate.
Qed.

(** Without [-e] the loop does not write the status. *)
Lemma retcode_it_loop w l s :
  pkg_exists s = false -> retcode (it_loop w l s) = retcode s.
Proof.
  revert s. induction l as [|p l IH]; intros s He; simpl; [done|].
  rewrite IH.
  - unfold candidate. simpl. rewrite He. by repeat case_match.
  - pose proof (fixed_candidate w p s) as Hf. fixed_fields Hf. congruence.
Qed.


(** What the loop prints, it prints with the categories and the [quiet] it
    started with. *)
Lemma out_it_loop w l s :
  exists evs, out (it_loop w l s) = out s ++ evs /\
    Forall (fun e => exists p, e = EvPrintInfo p (opt s) (quiet s)) evs.
Proof.
  revert s. induction l as [|p l IH]; intros s; simpl.
  - exists []. by rewrite app_nil_r.
  - destruct (IH (candidate w p s)) as (evs & -> & Hall).
    pose proof (fixed_candidate w p s) as Hf. fixed_fields Hf.
    assert (out (candidate w p s) = out s \/
            out (candidate w p s) = out s ++ [EvPrintInfo p (opt s) (quiet s)])
      as [->| ->].
    { unfold candidate. repeat case_match; simpl; auto. }
    + exists evs. split; [done|]. by replace (opt s) with (opt (candidate w p s)); replace (quiet s) with (quiet (candidate w p s)).
    + exists (EvPrintInfo p (opt s) (quiet s) :: evs). split.
      * by rewrite <- app_assoc.
      * constructor; [by eexists|].
        by replace (opt s) with (opt (candidate w p s)); replace (quiet s) with (quiet (candidate w p s)).
Qed.

(** ** The status across specifiers (C1) *)

(** One specifier, outside the exists-only mode, with a status that is
    already a failure: the status stays, or becomes the I/O-error code when
    the cursor does not end cleanly. *)
Lemma iterate_failure_kept K w argc i it s :
  pkg_exists s = false -> retcode s <> EX_OK ->
  pkg_exists (iterate K w argc i it s) = false /\
  retcode (iterate K w argc i it s) =
    (if decide (it_last it ≠ EPKG_END) then EX_IOERR else retcode s).
Proof.
  intros He Hr. unfold iterate.
  set (s1 := if origin_search s then set_gotone true s else s).
  set (s2 := disclose K argc i s1).
  set (s3 := it_loop w (it_pkgs it) s2).
  assert (pkg_exists s2 = false /\ retcode s2 = retcode s) as [He2 Hr2].
  { subst s2 s1. unfold disclose. destruct (origin_search s); by case_decide. }
  assert (pkg_exists s3 = false /\ retcode s3 = retcode s) as [He3 Hr3].
  { subst s3. split.
    - pose proof (fixed_it_loop w (it_pkgs it) s2) as Hf. fixed_fields Hf.
      congruence.
    - by rewrite retcode_it_loop. }
  clearbody s3. clear s1 s2 He2 Hr2.
  destruct (decide (it_last it ≠ EPKG_END)) as [Hend|Hend]; simpl.
  - done.
  - rewrite decide_False; [done|]. rewrite Hr3. by intros [? _].
Qed.

Lemma spec_body_failure_kept K w argc i s :
  pkg_exists s = false -> retcode s <> EX_OK ->
  match spec_body K w argc i s with
  | Next s' =>
      pkg_exists s' = false /\
      (retcode s' = retcode s \/
       retcode s' = EX_IOERR /\
       exists pat m it, pkgdb_query w pat m = Some it /\ it_last it ≠ EPKG_END)
  | Return c _ => c = EX_IOERR
  end.
Proof.
  intros He Hr. unfold spec_body.
  set (s1 := if decide (0 < argc)%nat
             then scan_specifier i (strip_slash argc i (set_gotone false s))
             else strip_slash argc i (set_gotone false s)).
  assert (pkg_exists s1 = false /\ retcode s1 = retcode s) as [He1 Hr1].
  { subst s1. pose proof (control_strip_slash argc i (set_gotone false s)) as H1.
    case_decide.
    - pose proof (control_scan_specifier i
                    (strip_slash argc i (set_gotone false s))) as H2.
      rewrite H1 in H2. fields H2. simpl in *. split; congruence.
    - fields H1. simpl in *. split; congruence. }
  clearbody s1.
  case_decide; [by auto|].
  destruct (pkgdb_query w _ _) as [it|] eqn:Hq; [|done].
  destruct (iterate_failure_kept K w argc i it
              (emit (EvQuery (pkgname i s1) (match_mode s1)) s1))
    as [He2 Hr2]; [done | by simpl; rewrite Hr1 |].
  split; [done|]. rewrite Hr2. simpl.
  case_decide; [right | left; done].
  split; [done|]. eauto.
Qed.

(** C1, as the code has it. Outside the exists-only mode a status that is a
    failure when a specifier starts (the software-error code that a
    specifier without a match left, say) is still there after all the
    later specifiers, unless the I/O-error code took its place; with cursors
    that end cleanly it is the final status.  A later match does not bring
    success back. *)
Theorem status_threaded K w argc rest i s :
  pkg_exists s = false -> retcode s <> EX_OK ->
  match do_while K w argc rest i s with
  | Next s' => retcode s' = retcode s \/ retcode s' = EX_IOERR
  | Return c _ => c = EX_IOERR
  end /\
  ((forall pat m it, pkgdb_query w pat m = Some it -> it_last it = EPKG_END) ->
   forall s', do_while K w argc rest i s = Next s' -> retcode s' = retcode s).
Proof.
  revert i s. induction rest as [|rest IH]; intros i s He Hr;
    pose proof (spec_body_failure_kept K w argc i s He Hr) as Hb; simpl;
    destruct (spec_body K w argc i s) as [s1|c s1]; simpl.
  - destruct Hb as [_ Hb]. split; [destruct Hb as [?|[? _]]; auto|].
    intros Hclean s' [= <-].
    destruct Hb as [?|[_ (pat & m & it & Hq & Hend)]]; [done|].
    by apply Hclean in Hq.
  - split; [done|]. intros _ s' [=].
  - destruct Hb as [He1 Hb].
    assert (retcode s1 <> EX_OK) as Hr1.
    { destruct Hb as [->|[-> _]]; done. }
    destruct (IH (S i) s1 He1 Hr1) as [IH1 IH2]. split.
    + destruct (do_while K w argc rest (S i) s1); [|done].
      destruct Hb as [<-|[Hio _]]; [done|].
      destruct IH1 as [->| ->]; auto.
    + intros Hclean s' Hs'. rewrite (IH2 Hclean s' Hs').
      destruct Hb as [?|[_ (pat & m & it & Hq & Hend)]]; [done|].
      by apply Hclean in Hq.
  - split; [done|]. intros _ s' [=].
Qed.

(** Witness of C1. [pkg info nosuch foo], after the first specifier found
    nothing: the second one matches, and the status is still the
    software-error code. *)
Lemma status_threaded_witness :
  let s := set_retcode EX_SOFTWARE
             (init pkgcli_h (command [] ["nosuch"%string; "foo"%string])) in
  (pkg_exists s = false /\ retcode s <> EX_OK) /\
  (match do_while pkgcli_h installed 2 0 1 s with
   | Next s' => retcode s' = retcode s \/ retcode s' = EX_IOERR
   | Return c _ => c = EX_IOERR
   end /\
   ((forall pat m it,
       pkgdb_query installed pat m = Some it -> it_last it = EPKG_END) ->
    forall s', do_while pkgcli_h installed 2 0 1 s = Next s' ->
               retcode s' = retcode s)).
Proof.
  intros s. split; [split; [reflexivity | discriminate] |].
  apply (status_threaded pkgcli_h installed 2 0 1 s);
    [reflexivity | discriminate].
Defined.

(** Against C1 as stated. [pkg info nosuch] fails, [pkg info foo]
    succeeds, and [pkg info nosuch foo] does not end with success: the
    success of the last specifier does not win over the earlier failure. *)
Lemma last_status_does_not_win :
  (exec_info pkgcli_h installed (command [] ["nosuch"%string])).1
    = EX_SOFTWARE /\
  (exec_info pkgcli_h installed (command [] ["foo"%string])).1 = EX_OK /\
  ~ (exec_info pkgcli_h installed
       (command [] ["nosuch"%string; "foo"%string])).1 = EX_OK.
Proof. vm_compute. repeat split; discriminate. Qed.

(** ** Empty patterns (C10) *)

Lemma cstr_nil_peek i s : cstr (buffer i s) = [] -> peek i O s = NUL.
Proof.
  unfold peek. fold (buffer i s).
  destruct (buffer i s) as [|c b]; simpl; [done|].
  by case_decide.
Qed.

(** The scan of a string that starts with its terminator does nothing. *)
Lemma scan_empty fuel i s : peek i O s = NUL -> scan fuel i O s = s.
Proof. intros H. destruct fuel; simpl; [done|]. by rewrite decide_True. Qed.

Lemma buffer_poke_eq i j c s : buffer i (poke i j c s) = <[j:=c]> (buffer i s).
Proof.
  unfold buffer, poke; simpl. rewrite list_lookup_alter_eq.
  by destruct (argv s !! i).
Qed.

Lemma peek_buffer i j s : peek i j s = default NUL (buffer i s !! j).
Proof. done. Qed.

(** A string is empty after the stripping exactly when the model's
    [strip_slash] leaves the terminator at its start. *)
Lemma empty_after_strip_spec argc i s :
  (0 < argc)%nat ->
  empty_after_strip (buffer i s) <-> peek i O (strip_slash argc i s) = NUL.
Proof.
  intros Hargc. unfold empty_after_strip, strip_slash, strlen.
  rewrite decide_True by done.
  destruct (buffer i s) as [|c b] eqn:Hb; simpl.
  { rewrite peek_buffer, Hb. simpl. by split; auto. }
  destruct (decide (c = NUL)) as [->|Hc]; simpl.
  { rewrite peek_buffer, Hb. simpl. by split; auto. }
  destruct (cstr b) as [|c' b'] eqn:Hcs; simpl.
  - rewrite (peek_buffer i 0 s), Hb. simpl.
    destruct (decide (c = "/"%char)) as [->|Hs].
    + split; [intros _|by right].
      by rewrite peek_buffer, buffer_poke_eq, Hb.
    + split; [intros [?|?]; simplify_eq|].
      rewrite peek_buffer, Hb. simpl. done.
  - split; [intros [?|?]; simplify_eq|].
    case_decide.
    + by rewrite peek_buffer, buffer_poke_eq, Hb.
    + by rewrite peek_buffer, Hb.
Qed.

Lemma spec_body_rejected K w argc i s :
  (0 < argc)%nat -> match_mode s ≠ MATCH_ALL ->
  empty_after_strip (buffer i s) ->
  spec_body K w argc i s =
    Next (emit empty_msg (strip_slash argc i (set_gotone false s))).
Proof.
  intros Hargc Hm He. unfold spec_body. cbv zeta.
  destruct (decide (0 < argc)%nat) as [_|?]; [|lia].
  apply (empty_after_strip_spec argc i (set_gotone false s) Hargc) in He.
  unfold scan_specifier. rewrite (scan_empty _ _ _ He).
  rewrite decide_True; [done|]. split; [|done].
  pose proof (control_strip_slash argc i (set_gotone false s)) as Hc.
  fields Hc. simpl in *. congruence.
Qed.

Lemma buffer_strip_slash_ne argc i s k :
  i ≠ k -> buffer k (strip_slash argc i s) = buffer k s.
Proof.
  intros Hne. unfold strip_slash. repeat case_match; try done.
  by apply buffer_poke_ne.
Qed.

(** C10. Under a match mode other than [MATCH_ALL], a specifier that is
    empty once its trailing slash is stripped leaves the status as it was,
    reaches [pkgdb_query] never (the only call is the message on stderr),
    and the loop goes on with the next specifier; when all the specifiers
    still due are such, the loop ends with the status it started with. *)
Theorem empty_pattern_skipped K w argc rest i s :
  (0 < argc)%nat -> match_mode s ≠ MATCH_ALL ->
  (empty_after_strip (buffer i s) ->
   exists s', spec_body K w argc i s = Next s' /\
     retcode s' = retcode s /\
     out s' = out s ++ [empty_msg] /\
     do_while K w argc (S rest) i s = do_while K w argc rest (S i) s') /\
  ((forall k, (i <= k <= i + rest)%nat -> empty_after_strip (buffer k s)) ->
   exists s', do_while K w argc rest i s = Next s' /\
     retcode s' = retcode s /\
     out s' = out s ++ replicate (S rest) empty_msg).
Proof.
  intros Hargc Hm.
  assert (forall i s, match_mode s ≠ MATCH_ALL ->
            empty_after_strip (buffer i s) ->
            exists s', spec_body K w argc i s = Next s' /\
              retcode s' = retcode s /\ out s' = out s ++ [empty_msg] /\
              match_mode s' = match_mode s /\
              forall k, i ≠ k -> buffer k s' = buffer k s) as Hstep.
  { clear i s Hm. intros i s Hm He.
    eexists. split; [by apply spec_body_rejected|].
    pose proof (control_strip_slash argc i (set_gotone false s)) as Hc.
    fields Hc. simpl in *. repeat split; try congruence.
    intros k Hk.
    change (buffer k (emit empty_msg (strip_slash argc i (set_gotone false s))))
      with (buffer k (strip_slash argc i (set_gotone false s))).
    by rewrite buffer_strip_slash_ne. }
  split.
  - intros He. destruct (Hstep i s Hm He) as (s' & Hb & Hr & Ho & _).
    exists s'. repeat split; try done. simpl. by rewrite Hb.
  - revert i s Hm. induction rest as [|rest IH]; intros i s Hm Hall.
    + destruct (Hstep i s Hm) as (s' & Hb & Hr & Ho & _); [apply Hall; lia|].
      exists s'. simpl. by rewrite Hb.
    + destruct (Hstep i s Hm) as (s' & Hb & Hr & Ho & Hm' & Hbuf);
        [apply Hall; lia|].
      destruct (IH (S i) s') as (s'' & Hd & Hr' & Ho').
      { congruence. }
      { intros k Hk. rewrite Hbuf by lia. apply Hall. lia. }
      exists s''. simpl. rewrite Hb. simpl. split; [done|].
      split; [congruence|].
      rewrite Ho', Ho, <- app_assoc. done.
Qed.

(** Witness of C10. [pkg info / ""]: two rejected specifiers, and the
    status is still success. *)
Lemma empty_pattern_skipped_witness :
  let s := init pkgcli_h (command [] ["/"%string; ""%string]) in
  ((0 < 2)%nat /\ match_mode s ≠ MATCH_ALL) /\
  (forall k, (0 <= k <= 0 + 1)%nat -> empty_after_strip (buffer k s)) /\
  exists s', do_while pkgcli_h installed 2 1 0 s = Next s' /\
    retcode s' = retcode s /\
    out s' = out s ++ replicate 2 empty_msg.
Proof.
  intros s.
  assert (forall k, (0 <= k <= 0 + 1)%nat -> empty_after_strip (buffer k s))
    as Hall.
  { intros k Hk. assert (k = 0 \/ k = 1)%nat as [-> | ->] by lia.
    - right. reflexivity.
    - left. reflexivity. }
  split; [split; [lia | discriminate] |].
  split; [exact Hall|].
  apply (empty_pattern_skipped pkgcli_h installed 2 1 0 s);
    [lia | discriminate | exact Hall].
Defined.

(** ** Option processing *)

(** What one option can do to the state. *)
Lemma getopt_case_cases K ch a s :
  match getopt_case K ch a s with
  | Next s' =>
      argv s' = argv s /\ gotone s' = gotone s /\
      pkgversion s' = pkgversion s /\ pkgversion2 s' = pkgversion2 s /\
      (pkg_exists s' = pkg_exists s /\ retcode s' = retcode s \/
       ch = "e"%char /\ pkg_exists s' = true /\ retcode s' = 1%Z) /\
      (ch = "e"%char -> pkg_exists s' = true /\ retcode s' = 1%Z) /\
      (origin_search s' = origin_search s \/
       ch = "O"%char /\ origin_search s' = true) /\
      (ch = "O"%char -> origin_search s' = true) /\
      (file s' = file s \/ ch = "F"%char /\ file s' = Some a) /\
      (out s' = out s \/ out s' = out s ++ [EvCaseSensitivity false])
  | Return c s' => c = EX_USAGE /\ out s' = out s ++ [EvUsage]
  end.
Proof.
  destruct ch as [[] [] [] [] [] [] [] []]; simpl;
    repeat split; try done; first [by left | by right].
Qed.

Lemma getopt_loop_spec K l s :
  match getopt_loop K l s with
  | Next s' =>
      argv s' = argv s /\ gotone s' = gotone s /\
      pkgversion s' = pkgversion s /\ pkgversion2 s' = pkgversion2 s /\
      (pkg_exists s = true /\ retcode s = 1%Z ->
       pkg_exists s' = true /\ retcode s' = 1%Z) /\
      ((exists a, ("e"%char, a) ∈ l) ->
       pkg_exists s' = true /\ retcode s' = 1%Z) /\
      ((forall a, ("e"%char, a) ∉ l) ->
       pkg_exists s' = pkg_exists s /\ retcode s' = retcode s) /\
      (origin_search s = true -> origin_search s' = true) /\
      ((exists a, ("O"%char, a) ∈ l) -> origin_search s' = true) /\
      (forall f, file s' = Some f -> file s = Some f \/ ("F"%char, f) ∈ l) /\
      (exists evs, out s' = out s ++ evs /\ Forall not_print evs)
  | Return c s' =>
      c = EX_USAGE /\ exists evs, out s' = out s ++ evs /\ Forall not_print evs
  end.
Proof.
  revert s. induction l as [|[ch a] l IH]; intros s; simpl.
  { split_and!; try done.
    - by intros [a Ha%elem_of_nil].
    - by intros [a Ha%elem_of_nil].
    - auto.
    - exists []. by rewrite app_nil_r. }
  pose proof (getopt_case_cases K ch a s) as Hc.
  destruct (getopt_case K ch a s) as [s1|c s1]; simpl.
  2:{ destruct Hc as [-> ->]. split; [done|].
      exists [EvUsage]. split; [done|]. repeat constructor. by intros []. }
  destruct Hc as (Ha & Hg & Hv & Hv2 & He & He' & Ho & Ho' & Hf & Hout).
  assert (exists evs1, out s1 = out s ++ evs1 /\ Forall not_print evs1)
    as (evs1 & Hout1 & Hnp1).
  { destruct Hout as [->| ->].
    - exists []. by rewrite app_nil_r.
    - eexists. split; [done|]. repeat constructor. by intros []. }
  specialize (IH s1).
  destruct (getopt_loop K l s1) as [s'|c s'].
  2:{ destruct IH as (-> & evs & -> & Hnp). split; [done|].
      exists (evs1 ++ evs). rewrite Hout1, <- app_assoc. split; [done|].
      by apply Forall_app. }
  destruct IH as (Ia & Ig & Iv & Iv2 & Ie1 & Ie2 & Ie3 & Io1 & Io2 & If & Iout).
  split_and!; try congruence.
  - intros [H1 H2]. apply Ie1. destruct He as [[-> ->]|(_ & ? & ?)]; done.
  - intros [b Hb]. apply elem_of_cons in Hb as [[= <- <-]|Hb].
    + apply Ie1. by apply He'.
    + apply Ie2. eauto.
  - intros H. destruct Ie3 as [-> ->].
    { intros b Hb. apply (H b). by apply elem_of_cons; right. }
    destruct He as [[-> ->]|(-> & _)]; [done|].
    exfalso. apply (H a). by apply elem_of_cons; left.
  - intros H. apply Io1. destruct Ho as [->|[_ ?]]; done.
  - intros [b Hb]. apply elem_of_cons in Hb as [[= <- <-]|Hb].
    + apply Io1. by apply Ho'.
    + apply Io2. eauto.
  - intros f Hf'. destruct (If f Hf') as [H1|H1].
    + destruct Hf as [<-|[-> Hf]]; [by left|].
      right. apply elem_of_cons; left. congruence.
    + right. by apply elem_of_cons; right.
  - destruct Iout as (evs & -> & Hnp). exists (evs1 ++ evs).
    rewrite Hout1, <- app_assoc. split; [done|]. by apply Forall_app.
Qed.

(** ** Match mode and categories *)

Lemma force_all_spec argc0 s :
  kept_by_mode (force_all argc0 s) = kept_by_mode s /\
  opt (force_all argc0 s) = opt s /\ quiet (force_all argc0 s) = quiet s.
Proof. unfold force_all. by case_decide. Qed.

Lemma select_categories_spec K argc s :
  match select_categories K argc s with
  | Next s' => kept_by_mode s' = kept_by_mode s /\ match_mode s' = match_mode s
  | Return c s' =>
      (c = EX_OK /\ out s' = out s) \/
      (c = EX_USAGE /\ origin_search s = false /\ out s' = out s ++ [EvUsage])
  end.
Proof.
  unfold select_categories. cbv zeta.
  destruct (origin_search s) eqn:Ho, (quiet s) eqn:Hq;
    repeat first [rewrite Ho | rewrite Hq | case_decide | progress simpl];
    first [done | by left | by right].
Qed.

Lemma select_mode_spec K argc0 argc s :
  match select_mode K argc0 argc s with
  | Next s' => kept_by_mode s' = kept_by_mode s
  | Return c s' =>
      (c = EX_OK /\ out s' = out s) \/
      (c = EX_USAGE /\ origin_search s = false /\ out s' = out s ++ [EvUsage])
  end.
Proof.
  unfold select_mode.
  destruct (force_all_spec argc0 s) as (Hk & _ & _).
  pose proof (select_categories_spec K argc (force_all argc0 s)) as H.
  destruct (select_categories K argc (force_all argc0 s)).
  - destruct H as [H _]. congruence.
  - unfold kept_by_mode in Hk. injection Hk as ????????????.
    destruct H as [[? ?]|(? & ? & ?)]; [left | right]; split_and!; congruence.
Qed.

Lemma land_lor_same (a b : Z) : Z.land (Z.lor a b) b = b.
Proof.
  apply Z.bits_inj'. intros n Hn.
  rewrite Z.land_spec, Z.lor_spec.
  destruct (Z.testbit a n), (Z.testbit b n); done.
Qed.

(** C5, as the code has it. With no category requested ([opt & INFO_ALL]
    is 0) and no origin search, the mode selection adds "comment" when the
    match mode is [MATCH_ALL] and the output is not quiet; under any other
    match mode it leaves the categories as they are. *)
Theorem comment_default_is_for_all K argc0 argc s s' :
  select_mode K argc0 argc s = Next s' ->
  origin_search s = false ->
  Z.land (opt s) (INFO_ALL K) = 0%Z ->
  (match_mode s' = MATCH_ALL -> quiet s = false ->
   opt s' = Z.lor (opt s) (INFO_COMMENT K) /\
   Z.land (opt s') (INFO_COMMENT K) = INFO_COMMENT K) /\
  (match_mode s' ≠ MATCH_ALL -> opt s' = opt s).
Proof.
  unfold select_mode. intros H Ho Hall.
  destruct (force_all_spec argc0 s) as (Hk & Hopt1 & Hq1).
  assert (origin_search (force_all argc0 s) = false) as Ho1.
  { unfold kept_by_mode in Hk. injection Hk as ????????????. congruence. }
  revert H. generalize (force_all argc0 s) Hopt1 Hq1 Ho1. clear Hk Hopt1 Hq1 Ho1.
  intros s1 Hopt1 Hq1 Ho1 H.
  unfold select_categories in H. cbv zeta in H.
  case_decide; [by rewrite Ho1 in H|].
  rewrite Hopt1 in H.
  destruct (decide (origin_search s1 = false ∧
                    Z.land (opt s) (INFO_ALL K) = 0%Z ∧
                    match_mode s1 = MATCH_ALL ∧ quiet s1 = false))
    as [Hc|Hc]; simpl in H; rewrite Ho1 in H.
  - destruct Hc as (_ & _ & Hm & Hq).
    case_decide; simplify_eq; simpl.
    + split; [|done]. intros _ _. split; [by rewrite Hopt1|].
      apply land_lor_same.
    + split; [|done]. intros _ _. split; [by rewrite Hopt1|].
      apply land_lor_same.
  - case_decide as Hc2; simplify_eq; simpl.
    + destruct Hc2 as [Hm _]. split; [|done]. intros _ Hq.
      exfalso. apply Hc. split_and!; congruence.
    + split; [|done]. intros Hm Hq.
      exfalso. apply Hc. split_and!; congruence.
Qed.

(** Witness of C5. [pkg info] without arguments: [MATCH_ALL], and
    "comment" is added. *)
Lemma comment_default_is_for_all_witness :
  let s := init pkgcli_h (command [] []) in
  let s' := opt_or pkgcli_h.(INFO_COMMENT) (set_match MATCH_ALL s) in
  (select_mode pkgcli_h 1 0 s = Next s' /\ origin_search s = false /\
   Z.land (opt s) (INFO_ALL pkgcli_h) = 0%Z) /\
  (match_mode s' = MATCH_ALL -> quiet s = false ->
   opt s' = Z.lor (opt s) (INFO_COMMENT pkgcli_h) /\
   Z.land (opt s') (INFO_COMMENT pkgcli_h) = INFO_COMMENT pkgcli_h) /\
  (match_mode s' ≠ MATCH_ALL -> opt s' = opt s).
Proof.
  intros s s'.
  split; [split_and!; reflexivity |].
  apply (comment_default_is_for_all pkgcli_h 1 0 s s'); reflexivity.
Defined.

(** Against C5 as stated. [pkg info foo foobar]: no category option, glob
    mode, not quiet, and the records are printed with the name-version tag
    alone. *)
Lemma comment_is_not_the_glob_default :
  let inv := command [] ["foo"%string; "foobar"%string] in
  getopt_seq inv = [] /\
  (exists s, prologue pkgcli_h installed inv = Next s /\
     match_mode s = MATCH_GLOB /\ quiet s = false /\
     opt s = INFO_TAG_NAMEVER pkgcli_h /\
     Z.land (opt s) (INFO_COMMENT pkgcli_h) ≠ INFO_COMMENT pkgcli_h) /\
  exec_info pkgcli_h installed inv =
    (EX_OK,
     [EvQuery (Some "foo"%string) MATCH_GLOB;
      EvPrintInfo foo_2_0 (INFO_TAG_NAMEVER pkgcli_h) false; EvItFree;
      EvQuery (Some "foobar"%string) MATCH_GLOB;
      EvPrintInfo foobar_0_5 (INFO_TAG_NAMEVER pkgcli_h) false; EvItFree]).
Proof.
  split; [reflexivity|]. split; [|by vm_compute].
  eexists. split; [by vm_compute|]. by vm_compute.
Qed.


(** On the sample: [pkg info -a -q] prints every record with the bare tag
    and [quiet] off; [pkg info -a] itself prints with "comment" added. *)
Example all_quiet_on_the_sample :
  exec_info pkgcli_h installed (command ["a"%char; "q"%char] []) =
    (EX_OK,
     [EvQuery None MATCH_ALL;
      EvPrintInfo foo_2_0 (INFO_TAG_NAMEVER pkgcli_h) false;
      EvPrintInfo foobar_0_5 (INFO_TAG_NAMEVER pkgcli_h) false;
      EvItFree]) /\
  exec_info pkgcli_h installed (command ["a"%char] []) =
    (EX_OK,
     [EvQuery None MATCH_ALL;
      EvPrintInfo foo_2_0
        (Z.lor (INFO_TAG_NAMEVER pkgcli_h) (INFO_COMMENT pkgcli_h)) false;
      EvPrintInfo foobar_0_5
        (Z.lor (INFO_TAG_NAMEVER pkgcli_h) (INFO_COMMENT pkgcli_h)) false;
      EvItFree]).
Proof. by vm_compute. Qed.

(** ** The single exact match (C8) *)

Lemma strcspn_full (l reject : list ascii) :
  strcspn l reject = length l <-> forall c, c ∈ l -> c ∉ reject.
Proof.
  induction l as [|c l IH]; simpl.
  - split; [|done]. intros _ c Hc. by apply elem_of_nil in Hc.
  - case_decide as Hin.
    + split; [done|]. intros H. exfalso. apply (H c); [by left | done].
    + split.
      * intros [= H]. intros c' [->|Hc']%elem_of_cons; [done|].
        by apply IH.
      * intros H. f_equal. apply IH. intros c' Hc'. apply H. by right.
Qed.

Lemma disclose_origin K argc i s :
  origin_search s = true -> disclose K argc i s = s.
Proof.
  intros H. unfold disclose. rewrite decide_False; [done|].
  intros (_ & H' & _). congruence.
Qed.

(** After the cursor loop nothing changes the categories, and all that is
    printed is printed with the categories the disclosure left. *)
Lemma iterate_prints K w argc i it s :
  opt (iterate K w argc i it s) = opt (disclose K argc i s) /\
  exists evs, out (iterate K w argc i it s) = out s ++ evs /\
    Forall (fun e => not_print e \/
                     exists p, e = EvPrintInfo p (opt (disclose K argc i s))
                                               (quiet s)) evs.
Proof.
  unfold iterate.
  set (s2 := disclose K argc i (if origin_search s then set_gotone true s else s)).
  assert (opt s2 = opt (disclose K argc i s) /\ quiet s2 = quiet s /\
          out s2 = out s) as (Ho2 & Hq2 & Hout2).
  { subst s2. destruct (origin_search s) eqn:Ho.
    - rewrite !disclose_origin by done. done.
    - unfold disclose. by case_decide. }
  clearbody s2.
  destruct (out_it_loop w (it_pkgs it) s2) as (evs & Hevs & Hall).
  pose proof (fixed_it_loop w (it_pkgs it) s2) as Hf. fixed_fields Hf.
  set (s3 := it_loop w (it_pkgs it) s2) in *. clearbody s3.
  set (s4 := if decide (it_last it ≠ EPKG_END)
             then set_retcode EX_IOERR s3 else s3).
  assert (opt s4 = opt s3 /\ out s4 = out s3 /\ quiet s4 = quiet s3)
    as (Ho4 & Hout4 & Hq4).
  { subst s4. by case_decide. }
  clearbody s4.
  case_decide; simpl.
  - split; [destruct (quiet s4); simpl; congruence|].
    destruct (quiet s4); simpl.
    + exists (evs ++ [EvItFree]). rewrite Hout4, Hevs, Hout2, <- app_assoc.
      split; [done|]. apply Forall_app. split.
      * eapply Forall_impl; [exact Hall|]. intros e [p ->]. right.
        exists p. congruence.
      * repeat constructor. by intros [].
    + eexists (evs ++ [_; EvItFree]).
      rewrite Hout4, Hevs, Hout2, <- !app_assoc.
      split; [done|]. apply Forall_app. split.
      * eapply Forall_impl; [exact Hall|]. intros e [p ->]. right.
        exists p. congruence.
      * repeat constructor; by intros [].
  - split; [congruence|].
    exists (evs ++ [EvItFree]). rewrite Hout4, Hevs, Hout2, <- app_assoc.
    split; [done|]. apply Forall_app. split.
    + eapply Forall_impl; [exact Hall|]. intros e [p ->]. right.
      exists p. congruence.
    + repeat constructor. by intros [].
Qed.

(** C8. One argument, glob mode, not quiet, no origin search, no [-E], and
    the bare name-version tag as the categories: when the name has none of
    the characters [*[]{}()], the query gets the full output on top of the
    tag, and every record of the query is printed with it; when the name
    has a [*], the categories stay the bare tag. *)
Theorem single_exact_match_disclosure K w i it s :
  origin_search s = false -> quiet s = false -> e_flag s = false ->
  match_mode s = MATCH_GLOB -> opt s = INFO_TAG_NAMEVER K ->
  ((forall c, c ∈ cstr (buffer i s) -> c ∉ glob_chars) ->
   opt (iterate K w 1 i it s) = Z.lor (INFO_TAG_NAMEVER K) (INFO_FULL K) /\
   forall p o q, EvPrintInfo p o q ∈ out (iterate K w 1 i it s) ->
     EvPrintInfo p o q ∈ out s \/
     o = Z.lor (INFO_TAG_NAMEVER K) (INFO_FULL K)) /\
  ("*"%char ∈ cstr (buffer i s) ->
   opt (iterate K w 1 i it s) = INFO_TAG_NAMEVER K /\
   forall p o q, EvPrintInfo p o q ∈ out (iterate K w 1 i it s) ->
     EvPrintInfo p o q ∈ out s \/ o = INFO_TAG_NAMEVER K).
Proof.
  intros Ho Hq He Hm Hopt.
  destruct (iterate_prints K w 1 i it s) as (Hio & evs & Hout & Hall).
  assert (forall x, opt (disclose K 1 i s) = x ->
            opt (iterate K w 1 i it s) = x /\
            forall p o q, EvPrintInfo p o q ∈ out (iterate K w 1 i it s) ->
              EvPrintInfo p o q ∈ out s \/ o = x) as Hgen.
  { intros x Hx. split; [congruence|]. intros p o q Hin.
    rewrite Hout in Hin. apply elem_of_app in Hin as [Hin|Hin]; [by left|].
    right. rewrite Forall_forall in Hall.
    destruct (Hall _ Hin) as [Hnp|[p' Heq]]; [exfalso; by apply Hnp|].
    injection Heq as _ Ho' _. congruence. }
  split; intros Hname; apply Hgen; unfold disclose.
  - rewrite decide_True; [by simpl; rewrite Hopt|].
    split_and!; try done. unfold strlen. by apply strcspn_full.
  - rewrite decide_False; [done|].
    intros (_ & _ & _ & _ & _ & Hs & _). unfold strlen in Hs.
    apply (proj1 (strcspn_full _ _) Hs _ Hname). by vm_compute; left.
Qed.

(** [pkg info foo] prints with the full output, [pkg info 'foo*'] with the
    bare tag. *)
Example disclosure_on_the_sample :
  exec_info pkgcli_h installed (command [] ["foo"%string]) =
    (EX_OK,
     [EvQuery (Some "foo"%string) MATCH_GLOB;
      EvPrintInfo foo_2_0
        (Z.lor (INFO_TAG_NAMEVER pkgcli_h) (INFO_FULL pkgcli_h)) false;
      EvItFree]) /\
  exec_info pkgcli_h installed (command [] ["foo*"%string]) =
    (EX_OK,
     [EvQuery (Some "foo*"%string) MATCH_GLOB;
      EvPrintInfo foo_2_0 (INFO_TAG_NAMEVER pkgcli_h) false;
      EvPrintInfo foobar_0_5 (INFO_TAG_NAMEVER pkgcli_h) false;
      EvItFree]).
Proof. by vm_compute. Qed.

(** Witness of C8. [pkg info foo]: the categories of the query are the tag
    and the full output. *)
Lemma single_exact_match_disclosure_witness :
  let s := init pkgcli_h (command [] ["foo"%string]) in
  let it := {| it_pkgs := [foo_2_0]; it_last := EPKG_END |} in
  (origin_search s = false /\ quiet s = false /\ e_flag s = false /\
   match_mode s = MATCH_GLOB /\ opt s = INFO_TAG_NAMEVER pkgcli_h) /\
  (forall c, c ∈ cstr (buffer 0 s) -> c ∉ glob_chars) /\
  opt (iterate pkgcli_h installed 1 0 it s) =
    Z.lor (INFO_TAG_NAMEVER pkgcli_h) (INFO_FULL pkgcli_h).
Proof.
  intros s it.
  assert (forall c, c ∈ cstr (buffer 0 s) -> c ∉ glob_chars) as Hname.
  { apply strcspn_full. reflexivity. }
  split; [split_and!; reflexivity|]. split; [exact Hname|].
  apply (single_exact_match_disclosure pkgcli_h installed 0 it s);
    try reflexivity.
  exact Hname.
Defined.

(** ** One specifier: what is fixed, and what is appended *)

Lemma iterate_tail K w argc i it s :
  let s3 := after_loop K w argc i it s in
  same_fixed (iterate K w argc i it s) s3 /\
  gotone (iterate K w argc i it s) = gotone s3 /\
  (out (iterate K w argc i it s) = out s3 ++ [EvItFree] \/
   exists m, out (iterate K w argc i it s) = out s3 ++ [EvWarnx m; EvItFree]) /\
  (it_last it = EPKG_END -> gotone s3 = true ->
   retcode (iterate K w argc i it s) = retcode s3).
Proof.
  intros s3. unfold iterate. fold (after_loop K w argc i it s). fold s3.
  clearbody s3.
  destruct (decide (it_last it ≠ EPKG_END)) as [Hend|Hend]; simpl.
  - split_and!; try done. by left.
  - case_decide as Hc; simpl.
    + destruct (quiet s3); simpl; split_and!; try done;
        try (by left); try (by (right; eexists; rewrite <- app_assoc));
        intros _ Hg; destruct Hc as (_ & Hc & _); congruence.
    + split_and!; try done. by left.
Qed.

Lemma fixed_after_loop K w argc i it s :
  let s3 := after_loop K w argc i it s in
  argv s3 = argv s /\ match_mode s3 = match_mode s /\ quiet s3 = quiet s /\
  pkgversion s3 = pkgversion s /\ pkgversion2 s3 = pkgversion2 s /\
  sign s3 = sign s /\ sign2 s3 = sign2 s /\
  pkg_exists s3 = pkg_exists s /\ origin_search s3 = origin_search s /\
  e_flag s3 = e_flag s /\ file s3 = file s.
Proof.
  intros s3. subst s3. unfold after_loop.
  pose proof (fixed_it_loop w (it_pkgs it)
                (disclose K argc i
                   (if origin_search s then set_gotone true s else s))) as Hf.
  fixed_fields Hf.
  unfold disclose in *.
  destruct (origin_search s) eqn:Ho; simpl in *;
    case_decide; simpl in *; split_and!; congruence.
Qed.

Lemma modes_parse argc i s :
  let s1 := if decide (0 < argc)%nat
            then scan_specifier i (strip_slash argc i (set_gotone false s))
            else strip_slash argc i (set_gotone false s) in
  modes s1 = modes s /\ retcode s1 = retcode s /\ out s1 = out s /\
  opt s1 = opt s.
Proof.
  intros s1. subst s1.
  pose proof (control_strip_slash argc i (set_gotone false s)) as H1.
  case_decide.
  - pose proof (control_scan_specifier i
                  (strip_slash argc i (set_gotone false s))) as H2.
    rewrite H1 in H2. fields H2. unfold modes. simpl in *.
    split_and!; congruence.
  - fields H1. unfold modes. simpl in *. split_and!; congruence.
Qed.

Lemma modes_spec_body K w argc i s :
  match spec_body K w argc i s with
  | Next s' => modes s' = modes s
  | Return _ s' => modes s' = modes s
  end.
Proof.
  unfold spec_body. cbv zeta.
  destruct (modes_parse argc i s) as (Hm & _).
  set (s1 := if decide (0 < argc)%nat
             then scan_specifier i (strip_slash argc i (set_gotone false s))
             else strip_slash argc i (set_gotone false s)) in *.
  clearbody s1.
  case_decide; [done|].
  destruct (pkgdb_query w _ _) as [it|]; [|done].
  destruct (iterate_tail K w argc i it
              (emit (EvQuery (pkgname i s1) (match_mode s1)) s1))
    as (Hf & _).
  destruct (fixed_after_loop K w argc i it
              (emit (EvQuery (pkgname i s1) (match_mode s1)) s1))
    as (? & ? & ? & ? & ? & ? & ? & ? & ? & ? & ?).
  destruct Hf as (? & ? & ? & ? & ? & ? & ? & ? & ? & ? & ? & ?).
  rewrite <- Hm. unfold modes. simpl in *. congruence.
Qed.

(** ** The exists-only mode (C7) *)



(** ** The file and database paths *)

Lemma file_mode_spec K w s :
  match file_mode K w s with
  | Next s' => s' = s /\ file s = None
  | Return c s' =>
      exists f fl, file s = Some f /\
        ((c = 1%Z /\ out s' = out s ++ [EvPkgOpen f fl]) \/
         (exists p o q, c = 0%Z /\ pkg_open w f fl = Some p /\
            out s' = out s ++ [EvPkgOpen f fl; EvPrintInfo p o q]))
  end.
Proof.
  unfold file_mode. destruct (file s) as [f|]; [|done].
  cbv zeta.
  assert (out (if decide (opt s = INFO_TAG_NAMEVER K)
               then opt_or (INFO_FULL K) s else s) = out s) as Hout
    by (by case_decide).
  match goal with
  | |- context [pkg_open w f ?fl] =>
      destruct (pkg_open w f fl) as [p|] eqn:Hp; exists f, fl; (split; [done|])
  end.
  - right. exists p. eexists _, _. split_and!; try done.
    simpl. by rewrite Hout, <- app_assoc.
  - left. split; [done|]. simpl. by rewrite Hout.
Qed.

Lemma db_mode_spec w s :
  match db_mode w s with
  | Next s' =>
      s' = s /\ pkgdb_access w = EPKG_OK /\ pkgdb_open w = EPKG_OK
  | Return c s' =>
      (out s' = out s \/ exists m, out s' = out s ++ [EvWarnx m]) /\
      ((c = EX_OK /\ pkgdb_access w = EPKG_ENODB /\
        (match_mode s = MATCH_ALL \/ origin_search s = true)) \/
       (c ≠ EX_OK /\
        ((pkgdb_access w = EPKG_ENODB /\ match_mode s ≠ MATCH_ALL /\
          origin_search s = false) \/
         (pkgdb_access w ≠ EPKG_OK /\ pkgdb_access w ≠ EPKG_ENODB) \/
         (pkgdb_access w = EPKG_OK /\ pkgdb_open w ≠ EPKG_OK))))
  end.
Proof.
  unfold db_mode. cbv zeta.
  destruct (decide (pkgdb_access w = EPKG_ENOACCESS)) as [Ha|Ha].
  { simpl. split; [right; by eexists|]. right. split; [done|].
    right; left. rewrite Ha. done. }
  destruct (decide (pkgdb_access w = EPKG_ENODB)) as [Hn|Hn].
  { destruct (decide (match_mode s = MATCH_ALL)) as [Hm|Hm].
    { split; [by left|]. left. auto. }
    destruct (origin_search s) eqn:Ho.
    { split; [by left|]. left. auto. }
    split.
    - destruct (quiet s); [by left | right; by eexists].
    - right. split; [done|]. left. done. }
  destruct (decide (pkgdb_access w ≠ EPKG_OK)) as [Hk|Hk].
  { split; [by left|]. right. split; [done|]. right; left. done. }
  destruct (decide (pkgdb_open w ≠ EPKG_OK)) as [Hop|Hop].
  { split; [by left|]. right. split; [done|]. right; right.
    split; [|done]. by destruct (decide (pkgdb_access w = EPKG_OK)). }
  split; [done|]. split.
  - by destruct (decide (pkgdb_access w = EPKG_OK)).
  - by destruct (decide (pkgdb_open w = EPKG_OK)).
Qed.

(** The state that the specifiers start from, as the options left it. *)
Lemma prologue_spec K w inv :
  match prologue K w inv with
  | Next s =>
      exists s0, getopt_loop K (getopt_seq inv) (init K inv) = Next s0 /\
        select_mode K (argc_of inv) (length (args inv)) s0 = Next s /\
        file s = None /\
        pkgdb_access w = EPKG_OK /\ pkgdb_open w = EPKG_OK
  | Return _ _ => True
  end.
Proof.
  unfold prologue.
  destruct (getopt_loop K (getopt_seq inv) (init K inv)) as [s0|]; [|done].
  simpl.
  destruct (select_mode K (argc_of inv) (length (args inv)) s0) as [s|]
    eqn:Hsel; [|done].
  simpl.
  pose proof (file_mode_spec K w s) as Hf.
  destruct (file_mode K w s) as [s'|]; [|done].
  destruct Hf as [-> Hf]. simpl.
  pose proof (db_mode_spec w s) as Hd.
  destruct (db_mode w s) as [s'|]; [|done].
  destruct Hd as (-> & ? & ?). exists s0. done.
Qed.

Lemma exec_info_prologue K w inv :
  exec_info K w inv =
    finish (bind (prologue K w inv) (specifiers K w (length (args inv)))).
Proof.
  unfold exec_info, prologue, query_path.
  destruct (getopt_loop K (getopt_seq inv) (init K inv)) as [s0|]; [|done].
  simpl.
  destruct (select_mode K (argc_of inv) (length (args inv)) s0) as [s|];
    [|done].
  simpl. destruct (file_mode K w s) as [s'|]; [|done].
  simpl. by destruct (db_mode w s').
Qed.


Lemma retcode_it_loop_ok w l s :
  pkg_exists s = true -> retcode s = EX_OK -> retcode (it_loop w l s) = EX_OK.
Proof.
  revert s. induction l as [|p l IH]; intros s He Hr; simpl; [done|].
  apply IH.
  - pose proof (fixed_candidate w p s) as Hf. fixed_fields Hf. congruence.
  - unfold candidate. simpl. rewrite He. by repeat case_match.
Qed.

Lemma retcode_candidate_kept w p s :
  pkg_exists s = true -> keeps w (pkg_version p) s = true ->
  retcode (candidate w p s) = EX_OK.
Proof.
  intros He Hk. unfold candidate.
  replace (keeps w (pkg_version p) (set_gotone true s))
    with (keeps w (pkg_version p) s) by done.
  rewrite Hk. simpl. by rewrite He.
Qed.



(** ** Specifiers without a version constraint *)

Lemma scan_plain fuel i j s : plain_buf (buffer i s) -> scan fuel i j s = s.
Proof.
  intros Hp. revert j. induction fuel as [|fuel IH]; intros j; simpl; [done|].
  case_decide as Hn; [done|].
  assert (peek i j s ≠ "<"%char ∧ peek i j s ≠ ">"%char ∧
          peek i j s ≠ "="%char) as (H1 & H2 & H3).
  { rewrite peek_buffer in *.
    destruct (buffer i s !! j) as [c|] eqn:Hc; [|done]. simpl.
    unfold plain_buf in Hp. by apply (Forall_lookup_1 _ _ _ _ Hp Hc). }
  rewrite !decide_False by done. apply IH.
Qed.

Lemma plain_strip_slash argc i s :
  Forall plain_buf (argv s) -> Forall plain_buf (argv (strip_slash argc i s)).
Proof.
  intros Hp. unfold strip_slash. repeat case_match; try done.
  unfold poke. simpl. apply Forall_alter; [done|].
  intros b _ Hb. by apply Forall_insert.
Qed.

Lemma plain_buffer i s : Forall plain_buf (argv s) -> plain_buf (buffer i s).
Proof.
  intros Hp. unfold buffer. destruct (argv s !! i) as [b|] eqn:Hb; simpl.
  - by apply (Forall_lookup_1 _ _ _ _ Hp Hb).
  - constructor.
Qed.

(** Without a version pointer every record is kept. *)
Lemma keeps_unconstrained w v s :
  pkgversion s = None -> pkgversion2 s = None -> keeps w v s = true.
Proof. intros H1 H2. unfold keeps. by rewrite H1, H2. Qed.

Lemma gotone_it_loop_unconstrained w l s :
  pkgversion s = None -> pkgversion2 s = None ->
  gotone (it_loop w l s) = match l with [] => gotone s | _ => true end.
Proof.
  intros H1 H2. destruct l as [|p l] using rev_ind; [done|].
  rewrite gotone_it_loop_last, keeps_unconstrained by done.
  by destruct l.
Qed.

Lemma origin_inv_parse argc i s :
  origin_inv s ->
  origin_inv (if decide (0 < argc)%nat
              then scan_specifier i (strip_slash argc i (set_gotone false s))
              else strip_slash argc i (set_gotone false s)).
Proof.
  intros (Ho & He & Hr & Hv & Hv2 & Hp).
  assert (origin_inv (strip_slash argc i (set_gotone false s))) as Hs.
  { pose proof (control_strip_slash argc i (set_gotone false s)) as Hc.
    fields Hc. simpl in *. unfold origin_inv. split_and!; try congruence.
    - unfold strip_slash. by repeat case_match.
    - unfold strip_slash. by repeat case_match.
    - by apply plain_strip_slash. }
  case_decide; [|done].
  unfold scan_specifier. rewrite scan_plain; [done|].
  apply plain_buffer. by destruct Hs as (_ & _ & _ & _ & _ & ?).
Qed.

Lemma origin_inv_iterate K w argc i it s :
  origin_inv s -> it_last it = EPKG_END ->
  origin_inv (iterate K w argc i it s) /\ gotone (iterate K w argc i it s) = true.
Proof.
  intros (Ho & He & Hr & Hv & Hv2 & Hp) Hend.
  destruct (iterate_tail K w argc i it s) as (Hf & Hg & _ & Hret).
  destruct (fixed_after_loop K w argc i it s)
    as (Ha & _ & _ & Hv' & Hv2' & _ & _ & He' & Ho' & _).
  assert (gotone (after_loop K w argc i it s) = true) as Hgot.
  { unfold after_loop. rewrite Ho. rewrite disclose_origin by done.
    rewrite gotone_it_loop_unconstrained by done. by destruct (it_pkgs it). }
  assert (retcode (after_loop K w argc i it s) = EX_OK) as Hr3.
  { unfold after_loop. rewrite Ho. rewrite disclose_origin by done.
    by rewrite retcode_it_loop. }
  destruct Hf as (Ha' & _ & _ & _ & Hv'' & Hv2'' & _ & _ & He'' & Ho'' & _).
  split; [|congruence].
  unfold origin_inv. split_and!; try congruence.
  rewrite Hret; done.
Qed.

Lemma origin_inv_spec_body K w argc i s :
  (forall pat m, exists it, pkgdb_query w pat m = Some it /\
                            it_last it = EPKG_END) ->
  origin_inv s ->
  exists s', spec_body K w argc i s = Next s' /\ origin_inv s'.
Proof.
  intros Hq Hinv. unfold spec_body. cbv zeta.
  pose proof (origin_inv_parse argc i s Hinv) as H1.
  set (s1 := if decide (0 < argc)%nat
             then scan_specifier i (strip_slash argc i (set_gotone false s))
             else strip_slash argc i (set_gotone false s)) in *.
  clearbody s1.
  case_decide.
  { eexists. split; [done|]. exact H1. }
  match goal with
  | |- context [pkgdb_query w ?a ?b] => destruct (Hq a b) as (it & -> & Hend)
  end.
  eexists. split; [done|].
  apply origin_inv_iterate; [|done]. exact H1.
Qed.

Lemma origin_inv_do_while K w argc rest i s :
  (forall pat m, exists it, pkgdb_query w pat m = Some it /\
                            it_last it = EPKG_END) ->
  origin_inv s ->
  exists s', do_while K w argc rest i s = Next s' /\ origin_inv s'.
Proof.
  intros Hq. revert i s. induction rest as [|rest IH]; intros i s Hinv; simpl;
    destruct (origin_inv_spec_body K w argc i s Hq Hinv) as (s1 & -> & H1);
    simpl; eauto.
Qed.

(** ** Origin search (C6) *)

(** Against C6 as stated. [pkg info -O -e nosuch]: origin search, nothing
    matches, and the status is 1. *)
Lemma origin_search_may_fail :
  let inv := command ["O"%char; "e"%char] ["nosuch"%string] in
  ("O"%char, EmptyString) ∈ getopt_seq inv /\
  exec_info pkgcli_h installed inv =
    (1%Z, [EvQuery (Some "nosuch"%string) MATCH_GLOB; EvItFree]) /\
  ~ (exec_info pkgcli_h installed inv).1 = EX_OK.
Proof.
  split; [by left|]. split; [by vm_compute|]. by vm_compute.
Qed.

(** A case outside the theorem below: under [-O] a record that the
    constraint drops takes the seeded flag back, and the status is the
    software-error code. *)
Example origin_search_with_dropped_record :
  exec_info pkgcli_h installed (command ["O"%char] ["foo>3.0"%string]) =
    (EX_SOFTWARE,
     [EvQuery (Some "foo"%string) MATCH_GLOB;
      EvWarnx "No package(s) matching foo"; EvItFree]).
Proof. by vm_compute. Qed.

(** C6, as the code has it. Under [-O], without [-e] and [-F], with
    options that getopt accepts, a database that can be read or is absent,
    cursors that open and end cleanly, and specifiers without operator
    characters: the flag is seeded, so a cursor without a record leaves it
    true, and the exit status is success whatever matched. *)
Theorem origin_search_succeeds K w inv :
  (exists a, ("O"%char, a) ∈ getopt_seq inv) ->
  (forall a, ("e"%char, a) ∉ getopt_seq inv) ->
  (forall a, ("F"%char, a) ∉ getopt_seq inv) ->
  (exists s, getopt_loop K (getopt_seq inv) (init K inv) = Next s) ->
  (pkgdb_access w = EPKG_OK \/ pkgdb_access w = EPKG_ENODB) ->
  pkgdb_open w = EPKG_OK ->
  (forall pat m, exists it, pkgdb_query w pat m = Some it /\
                            it_last it = EPKG_END) ->
  Forall plain (args inv) ->
  (forall s argc i e, origin_search s = true ->
     gotone (iterate K w argc i {| it_pkgs := []; it_last := e |} s) = true) /\
  (exec_info K w inv).1 = EX_OK.
Proof.
  intros HO He HF [s0 Hs0] Hacc Hopen Hq Hplain. split.
  { intros s argc i e Ho.
    destruct (iterate_tail K w argc i {| it_pkgs := []; it_last := e |} s)
      as (_ & -> & _).
    unfold after_loop. simpl. rewrite Ho. by rewrite disclose_origin. }
  pose proof (getopt_loop_spec K (getopt_seq inv) (init K inv)) as Hg.
  unfold exec_info. rewrite Hs0 in *. simpl.
  destruct Hg as (Ha & _ & Hv & Hv2 & _ & _ & Hne & _ & Ho & Hfile & _).
  destruct (Hne He) as [Hx0 Hr0]. specialize (Ho HO).
  assert (file s0 = None) as Hf0.
  { destruct (file s0) as [f|] eqn:Hf; [|done].
    destruct (Hfile f eq_refl) as [Hi|Hi]; [done|]. by destruct (HF f). }
  pose proof (select_mode_spec K (argc_of inv) (length (args inv)) s0) as Hm.
  destruct (select_mode K (argc_of inv) (length (args inv)) s0) as [s|c s];
    simpl.
  2:{ destruct Hm as [[-> _]|(_ & Hno & _)]; [done | congruence]. }
  unfold kept_by_mode in Hm. injection Hm as ????????????.
  assert (origin_inv s) as Hinv.
  { simpl in Hx0, Hr0, Hv, Hv2, Ha.
    unfold origin_inv, EX_OK. split_and!; try congruence.
    replace (argv s) with (argv s0) by done. rewrite Ha.
    apply Forall_fmap. exact Hplain. }
  unfold query_path.
  pose proof (file_mode_spec K w s) as Hf.
  destruct (file_mode K w s) as [s1|c s1]; simpl.
  2:{ destruct Hf as (f & fl & Hfs & _). congruence. }
  destruct Hf as [-> _].
  pose proof (db_mode_spec w s) as Hd.
  destruct (db_mode w s) as [s1|c s1]; simpl.
  2:{ destruct Hd as [_ [(-> & _)|(_ & [(_ & _ & Hno)|[[? ?]|[_ ?]]])]];
        try done.
      - destruct Hinv as [? _]. congruence.
      - by destruct Hacc. }
  destruct Hd as (-> & _).
  unfold specifiers.
  destruct (origin_inv_do_while K w (length (args inv))
              (length (args inv) - 1) 0 s Hq Hinv) as (s' & -> & Hinv').
  simpl. by destruct Hinv' as (_ & _ & ? & _).
Qed.

(** Witness of C6. [pkg info -O nosuch foo]: one specifier matches
    nothing, one matches, and the status is success. *)
Lemma origin_search_succeeds_witness :
  let inv := command ["O"%char] ["nosuch"%string; "foo"%string] in
  ((exists a, ("O"%char, a) ∈ getopt_seq inv) /\
   (forall a, ("e"%char, a) ∉ getopt_seq inv) /\
   (forall a, ("F"%char, a) ∉ getopt_seq inv) /\
   (exists s, getopt_loop pkgcli_h (getopt_seq inv) (init pkgcli_h inv)
              = Next s) /\
   (pkgdb_access installed = EPKG_OK \/ pkgdb_access installed = EPKG_ENODB) /\
   pkgdb_open installed = EPKG_OK /\
   (forall pat m, exists it, pkgdb_query installed pat m = Some it /\
                             it_last it = EPKG_END) /\
   Forall plain (args inv)) /\
  (exec_info pkgcli_h installed inv).1 = EX_OK.
Proof.
  intros inv.
  assert (exists a, ("O"%char, a) ∈ getopt_seq inv) as H1.
  { exists EmptyString. by left. }
  assert (forall a, ("e"%char, a) ∉ getopt_seq inv) as H2.
  { intros a Ha. apply list_elem_of_singleton in Ha. discriminate. }
  assert (forall a, ("F"%char, a) ∉ getopt_seq inv) as H3.
  { intros a Ha. apply list_elem_of_singleton in Ha. discriminate. }
  assert (exists s, getopt_loop pkgcli_h (getopt_seq inv) (init pkgcli_h inv)
                    = Next s) as H4.
  { eexists. reflexivity. }
  assert (forall pat m, exists it, pkgdb_query installed pat m = Some it /\
                                   it_last it = EPKG_END) as H5.
  { intros pat m. eexists. split; reflexivity. }
  assert (Forall plain (args inv)) as H6.
  { repeat constructor; discriminate. }
  split; [split_and!; auto|].
  apply (origin_search_succeeds pkgcli_h installed inv H1 H2 H3 H4
           (or_introl eq_refl) eq_refl H5 H6).
Defined.

(** * Further properties of [exec_info] *)

(** ** The exit status *)

Lemma retcode_candidate_cases w p s :
  retcode (candidate w p s) = retcode s \/ retcode (candidate w p s) = EX_OK.
Proof. unfold candidate. repeat case_match; simpl; auto. Qed.

Lemma retcode_it_loop_cases w l s :
  retcode (it_loop w l s) = retcode s \/ retcode (it_loop w l s) = EX_OK.
Proof.
  revert s. induction l as [|p l IH]; intros s; simpl; [by left|].
  destruct (IH (candidate w p s)) as [->| ->]; [|by right].
  apply retcode_candidate_cases.
Qed.

Lemma retcode_pkg_exists_it_loop w l s :
  pkg_exists s = false -> retcode (it_loop w l s) = retcode s.
Proof. apply retcode_it_loop. Qed.

(** The status after one specifier: what it was, or one of three codes. *)
Lemma retcode_iterate_cases K w argc i it s :
  retcode (iterate K w argc i it s) ∈
    [retcode s; EX_OK; EX_SOFTWARE; EX_IOERR] /\
  (pkg_exists s = false ->
   retcode (iterate K w argc i it s) ∈ [retcode s; EX_SOFTWARE; EX_IOERR]).
Proof.
  assert (retcode (after_loop K w argc i it s) = retcode s \/
          retcode (after_loop K w argc i it s) = EX_OK) as H3.
  { unfold after_loop.
    destruct (retcode_it_loop_cases w (it_pkgs it)
                (disclose K argc i
                   (if origin_search s then set_gotone true s else s)))
      as [-> | ->]; [left|by right].
    unfold disclose. destruct (origin_search s); by case_decide. }
  assert (pkg_exists s = false ->
          retcode (after_loop K w argc i it s) = retcode s) as H3'.
  { intros He. unfold after_loop. rewrite retcode_it_loop.
    - unfold disclose. destruct (origin_search s); by case_decide.
    - unfold disclose. destruct (origin_search s); by case_decide. }
  unfold iterate. fold (after_loop K w argc i it s).
  set (s3 := after_loop K w argc i it s) in *. clearbody s3.
  destruct (decide (it_last it ≠ EPKG_END)) as [Hend|Hend]; simpl.
  { split; [|intros _]; list_mem. }
  case_decide as Hc; simpl.
  { split; [|intros _]; destruct (quiet s3); simpl; list_mem. }
  split.
  - destruct H3 as [->| ->]; list_mem.
  - intros He. rewrite (H3' He). list_mem.
Qed.

Lemma retcode_spec_body_cases K w argc i s :
  match spec_body K w argc i s with
  | Next s' =>
      retcode s' ∈ [retcode s; EX_OK; EX_SOFTWARE; EX_IOERR] /\
      (pkg_exists s = false ->
       retcode s' ∈ [retcode s; EX_SOFTWARE; EX_IOERR])
  | Return c _ => c = EX_IOERR
  end.
Proof.
  unfold spec_body. cbv zeta.
  destruct (modes_parse argc i s) as (Hm & Hr & _).
  set (s1 := if decide (0 < argc)%nat
             then scan_specifier i (strip_slash argc i (set_gotone false s))
             else strip_slash argc i (set_gotone false s)) in *.
  assert (pkg_exists s1 = pkg_exists s) as He1.
  { unfold modes in Hm. by injection Hm as ??????. }
  clearbody s1.
  case_decide.
  { simpl. rewrite Hr. split; [|intros _]; list_mem. }
  destruct (pkgdb_query w _ _) as [it|]; [|done].
  destruct (retcode_iterate_cases K w argc i it
              (emit (EvQuery (pkgname i s1) (match_mode s1)) s1)) as [H1 H2].
  simpl in H1, H2. rewrite Hr, He1 in *. done.
Qed.

Lemma retcode_do_while_cases K w argc rest i s :
  match do_while K w argc rest i s with
  | Next s' =>
      retcode s' ∈ [retcode s; EX_OK; EX_SOFTWARE; EX_IOERR] /\
      (pkg_exists s = false ->
       retcode s' ∈ [retcode s; EX_SOFTWARE; EX_IOERR])
  | Return c _ => c = EX_IOERR
  end.
Proof.
  revert i s. induction rest as [|rest IH]; intros i s; simpl;
    pose proof (retcode_spec_body_cases K w argc i s) as Hb;
    pose proof (modes_spec_body K w argc i s) as Hm;
    destruct (spec_body K w argc i s) as [s1|c s1]; simpl; try done.
  assert (pkg_exists s1 = pkg_exists s) as He1.
  { unfold modes in Hm. by injection Hm as ??????. }
  specialize (IH (S i) s1).
  destruct (do_while K w argc rest (S i) s1) as [s'|c s']; [|done].
  destruct Hb as [Hb1 Hb2], IH as [IH1 IH2]. rewrite He1 in IH2. split.
  - list_mem.
  - intros He. specialize (Hb2 He). specialize (IH2 He). list_mem.
Qed.

Lemma getopt_exists_iff (l : list (ascii * string)) (ch : ascii) :
  (exists a, (ch, a) ∈ l) <-> ch ∈ l.*1.
Proof.
  rewrite list_elem_of_fmap. split.
  - intros [a Ha]. by exists (ch, a).
  - intros [[c a] [-> Ha]]. by exists a.
Qed.

(** The status after the options is 0, or 1 under [-e]. *)
Lemma getopt_loop_retcode K inv :
  match getopt_loop K (getopt_seq inv) (init K inv) with
  | Next s =>
      (retcode s = 0%Z /\ pkg_exists s = false /\ "e"%char ∉ options inv) \/
      (retcode s = 1%Z /\ pkg_exists s = true /\ "e"%char ∈ options inv)
  | Return c _ => c = EX_USAGE
  end.
Proof.
  pose proof (getopt_loop_spec K (getopt_seq inv) (init K inv)) as Hg.
  destruct (getopt_loop K (getopt_seq inv) (init K inv)) as [s|c s];
    [|by destruct Hg].
  destruct Hg as (_ & _ & _ & _ & _ & He & Hne & _).
  destruct (decide ("e"%char ∈ options inv)) as [Hin|Hin].
  - right. destruct He as [? ?]; [by apply getopt_exists_iff|done].
  - left. destruct Hne as [? ?]; [|done].
    intros a Ha. apply Hin. apply getopt_exists_iff. eauto.
Qed.

Lemma select_mode_codes K argc0 argc s :
  match select_mode K argc0 argc s with
  | Next s' => True
  | Return c _ => c = EX_OK \/ c = EX_USAGE
  end.
Proof.
  pose proof (select_mode_spec K argc0 argc s) as H.
  destruct (select_mode K argc0 argc s); [done|].
  destruct H as [[? _]|[? _]]; auto.
Qed.

Lemma db_mode_codes w s :
  match db_mode w s with
  | Next _ => True
  | Return c _ => c ∈ [EX_NOPERM; EX_OK; EX_UNAVAILABLE; EX_IOERR]
  end.
Proof.
  unfold db_mode. cbv zeta. repeat case_decide; repeat case_match;
    try done; list_mem.
Qed.

(** X1. [exec_info] returns one of seven values; it returns 1 only under
    [-e] or [-F], and the software-error code only from the specifier
    loop. *)
Theorem exit_code_range K w inv :
  (exec_info K w inv).1 ∈ exit_codes /\
  ((exec_info K w inv).1 = 1%Z ->
   "e"%char ∈ options inv \/ "F"%char ∈ options inv).
Proof.
  unfold exec_info, exit_codes.
  pose proof (getopt_loop_retcode K inv) as Hr.
  pose proof (getopt_loop_spec K (getopt_seq inv) (init K inv)) as Hg.
  destruct (getopt_loop K (getopt_seq inv) (init K inv)) as [s0|c s0]; simpl.
  2:{ subst c. split; [list_mem | done]. }
  destruct Hg as (_ & _ & _ & _ & _ & _ & _ & _ & _ & Hfile & _).
  pose proof (select_mode_codes K (argc_of inv) (length (args inv)) s0) as Hc.
  pose proof (select_mode_spec K (argc_of inv) (length (args inv)) s0) as Hm.
  destruct (select_mode K (argc_of inv) (length (args inv)) s0) as [s|c s];
    simpl.
  2:{ destruct Hc as [-> | ->]; (split; [list_mem | done]). }
  unfold kept_by_mode in Hm. injection Hm as ????????????.
  unfold query_path.
  pose proof (file_mode_spec K w s) as Hf.
  destruct (file_mode K w s) as [s1|c s1]; simpl.
  2:{ destruct Hf as (f & fl & Hfs & Hcase).
      assert ("F"%char ∈ options inv) as HF.
      { destruct (Hfile f) as [Hi|Hi]; [congruence | done |].
        apply getopt_exists_iff. eauto. }
      destruct Hcase as [[-> _]|(? & ? & ? & -> & _)];
        (split; [list_mem | auto]). }
  destruct Hf as [-> _].
  pose proof (db_mode_codes w s) as Hd.
  destruct (db_mode w s) as [s1|c s1] eqn:Hdb; simpl.
  2:{ split; [list_mem|]. intros ->. exfalso. list_mem. }
  assert (s1 = s) as ->.
  { pose proof (db_mode_spec w s) as Hd'. rewrite Hdb in Hd'. by destruct Hd'. }
  unfold specifiers.
  pose proof (retcode_do_while_cases K w (length (args inv))
                (length (args inv) - 1) 0 s) as Hw.
  destruct (do_while K w (length (args inv)) (length (args inv) - 1) 0 s)
    as [s'|c s']; simpl.
  2:{ subst c. split; [list_mem | done]. }
  destruct Hw as [Hw1 Hw2].
  destruct Hr as [(Hr0 & He0 & Hn)|(Hr0 & He0 & Hin)].
  - assert (retcode s = 0%Z) as Hrs by congruence.
    assert (pkg_exists s = false) as Hes by congruence.
    specialize (Hw2 Hes). rewrite Hrs in Hw2. split.
    + unfold EX_OK. list_mem.
    + intros Hone. exfalso. rewrite Hone in Hw2. list_mem.
  - assert (retcode s = 1%Z) as Hrs by congruence.
    rewrite Hrs in Hw1. split; [list_mem | auto].
Qed.

(** ** Cursors *)

Lemma cursor_log_app w l1 l2 :
  cursor_log w (l1 ++ l2) = cursor_log w l1 ++ cursor_log w l2.
Proof. apply omap_app. Qed.

Lemma cursor_log_no_cursor w l : Forall no_cursor l -> cursor_log w l = [].
Proof.
  induction 1 as [|e l He _ IH]; [done|].
  change (cursor_log w (e :: l))
    with (from_option (fun b => b :: cursor_log w l) (cursor_log w l)
            (cursor_event w e)).
  rewrite IH. by destruct e.
Qed.

Lemma getopt_loop_no_cursor K l s :
  match getopt_loop K l s with
  | Next s' | Return _ s' =>
      exists evs, out s' = out s ++ evs /\ Forall no_cursor evs
  end.
Proof.
  revert s. induction l as [|[ch a] l IH]; intros s; simpl.
  { exists []. by rewrite app_nil_r. }
  pose proof (getopt_case_cases K ch a s) as Hc.
  destruct (getopt_case K ch a s) as [s1|c s1]; simpl.
  2:{ destruct Hc as [_ ->]. eexists. split; [done|]. by repeat constructor. }
  destruct Hc as (_ & _ & _ & _ & _ & _ & _ & _ & _ & Hout).
  assert (exists evs1, out s1 = out s ++ evs1 /\ Forall no_cursor evs1)
    as (evs1 & Hout1 & Hn1).
  { destruct Hout as [-> | ->].
    - exists []. by rewrite app_nil_r.
    - eexists. split; [done|]. by repeat constructor. }
  specialize (IH s1).
  destruct (getopt_loop K l s1); destruct IH as (evs & -> & Hn);
    exists (evs1 ++ evs); rewrite Hout1, <- app_assoc;
    (split; [done | by apply Forall_app]).
Qed.

(** Nothing before the specifier loop touches a cursor. *)
Lemma prologue_no_cursor K w inv :
  match prologue K w inv with
  | Next s | Return _ s => Forall no_cursor (out s)
  end.
Proof.
  unfold prologue.
  pose proof (getopt_loop_no_cursor K (getopt_seq inv) (init K inv)) as Hg.
  destruct (getopt_loop K (getopt_seq inv) (init K inv)) as [s0|c s0]; simpl;
    destruct Hg as (evs & Hout & Hn); simpl in Hout; [|by rewrite Hout].
  pose proof (select_mode_spec K (argc_of inv) (length (args inv)) s0) as Hm.
  destruct (select_mode K (argc_of inv) (length (args inv)) s0) as [s|c s];
    simpl.
  2:{ destruct Hm as [[_ ->]|(_ & _ & ->)]; rewrite Hout; [done|].
      apply Forall_app. split; [done|]. by repeat constructor. }
  unfold kept_by_mode in Hm. injection Hm as ????????????.
  assert (Forall no_cursor (out s)) as Hs by congruence.
  pose proof (file_mode_spec K w s) as Hf.
  destruct (file_mode K w s) as [s1|c s1]; simpl.
  2:{ destruct Hf as (f & fl & _ & [[_ ->]|(p & o & q & _ & _ & ->)]);
        apply Forall_app; (split; [done|]); by repeat constructor. }
  destruct Hf as [-> _].
  pose proof (db_mode_spec w s) as Hd.
  destruct (db_mode w s) as [s1|c s1]; simpl.
  2:{ destruct Hd as [[-> |[m ->]] _]; [done|].
      apply Forall_app. split; [done|]. by repeat constructor. }
  by destruct Hd as (-> & _).
Qed.

Lemma iterate_cursor_log K w argc i it s :
  cursor_log w (out (iterate K w argc i it s)) = cursor_log w (out s) ++ [false].
Proof.
  destruct (iterate_tail K w argc i it s) as (_ & _ & Htail & _).
  assert (exists evs, out (after_loop K w argc i it s) = out s ++ evs /\
                      Forall no_cursor evs) as (evs & Hal & Hn).
  { unfold after_loop.
    destruct (out_it_loop w (it_pkgs it)
                (disclose K argc i
                   (if origin_search s then set_gotone true s else s)))
      as (evs & -> & Hall).
    exists evs. split.
    - f_equal. unfold disclose. destruct (origin_search s); by case_decide.
    - eapply Forall_impl; [exact Hall|]. by intros e [p ->]. }
  destruct Htail as [-> |[m ->]]; rewrite Hal, !cursor_log_app,
    (cursor_log_no_cursor _ _ Hn); by rewrite app_nil_r.
Qed.

(** One specifier opens at most one cursor and releases it before the
    body ends; when [pkgdb_query] answers NULL there is nothing to
    release. *)
Lemma spec_body_cursor_log K w argc i s :
  match spec_body K w argc i s with
  | Next s' =>
      cursor_log w (out s') = cursor_log w (out s) \/
      cursor_log w (out s') = cursor_log w (out s) ++ [true; false]
  | Return _ s' => cursor_log w (out s') = cursor_log w (out s)
  end.
Proof.
  unfold spec_body. cbv zeta.
  destruct (modes_parse argc i s) as (_ & _ & Hout & _).
  set (s1 := if decide (0 < argc)%nat
             then scan_specifier i (strip_slash argc i (set_gotone false s))
             else strip_slash argc i (set_gotone false s)) in *.
  clearbody s1.
  case_decide.
  { left. simpl. by rewrite Hout, cursor_log_app, app_nil_r. }
  destruct (pkgdb_query w _ _) as [it|] eqn:Hq.
  - assert (pkgdb_query w (pkgname i s1) (match_mode s1) = Some it) as Hq'
      by exact Hq.
    right. rewrite iterate_cursor_log. simpl.
    rewrite Hout, cursor_log_app.
    unfold cursor_log at 2. simpl. rewrite Hq'. by rewrite <- app_assoc.
  - assert (pkgdb_query w (pkgname i s1) (match_mode s1) = None) as Hq'
      by exact Hq.
    simpl. rewrite Hout, cursor_log_app.
    unfold cursor_log at 2. simpl. rewrite Hq'. by rewrite app_nil_r.
Qed.

Lemma do_while_cursor_log K w argc rest i s :
  match do_while K w argc rest i s with
  | Next s' | Return _ s' =>
      exists n, cursor_log w (out s') =
                cursor_log w (out s) ++ concat (replicate n [true; false])
  end.
Proof.
  revert i s. induction rest as [|rest IH]; intros i s; simpl;
    pose proof (spec_body_cursor_log K w argc i s) as Hb;
    destruct (spec_body K w argc i s) as [s1|c s1]; simpl.
  - destruct Hb as [-> | ->]; [by exists 0%nat; rewrite app_nil_r|].
    by exists 1%nat.
  - rewrite Hb. by exists 0%nat; rewrite app_nil_r.
  - specialize (IH (S i) s1).
    assert (exists n1, cursor_log w (out s1) =
              cursor_log w (out s) ++ concat (replicate n1 [true; false]))
      as [n1 H1].
    { destruct Hb as [-> | ->]; [by exists 0%nat; rewrite app_nil_r|].
      by exists 1%nat. }
    destruct (do_while K w argc rest (S i) s1); destruct IH as [n ->];
      exists (n1 + n)%nat;
      by rewrite H1, <- app_assoc, replicate_add, concat_app.
  - rewrite Hb. by exists 0%nat; rewrite app_nil_r.
Qed.

(** X2. Over a whole run, the cursors that [pkgdb_query] answers and the
    calls of [pkgdb_it_free] alternate: every cursor is released once,
    before the next query and before [exec_info] returns, whatever path is
    taken. *)
Theorem cursors_are_released K w inv :
  exists n, cursor_log w (exec_info K w inv).2 =
            concat (replicate n [true; false]).
Proof.
  rewrite exec_info_prologue.
  pose proof (prologue_no_cursor K w inv) as Hp.
  destruct (prologue K w inv) as [s|c s]; simpl.
  2:{ exists 0%nat. by apply cursor_log_no_cursor. }
  unfold specifiers.
  pose proof (do_while_cursor_log K w (length (args inv))
                (length (args inv) - 1) 0 s) as Hw.
  rewrite (cursor_log_no_cursor w _ Hp) in Hw.
  by destruct (do_while K w (length (args inv)) (length (args inv) - 1) 0 s).
Qed.

(** ** The database is checked before it is queried *)

Lemma getopt_case_file K a s :
  match getopt_case K "F"%char a s with
  | Next s' => file s' = Some a
  | Return _ _ => False
  end.
Proof. done. Qed.

Lemma getopt_loop_file K l s :
  match getopt_loop K l s with
  | Next s' => is_Some (file s) \/ "F"%char ∈ l.*1 -> is_Some (file s')
  | Return _ _ => True
  end.
Proof.
  revert s. induction l as [|[ch a] l IH]; intros s; simpl.
  { intros [H|H]; [done|]. by apply elem_of_nil in H. }
  pose proof (getopt_case_cases K ch a s) as Hc.
  pose proof (getopt_case_file K a s) as HF.
  destruct (getopt_case K ch a s) as [s1|c s1] eqn:Hcase; simpl; [|done].
  destruct Hc as (_ & _ & _ & _ & _ & _ & _ & _ & Hf & _).
  specialize (IH s1). destruct (getopt_loop K l s1) as [s'|]; [|done].
  intros [H|H]; apply IH.
  - left. destruct Hf as [->|[_ ->]]; [done | by eexists].
  - apply elem_of_cons in H as [<-|H]; [|by right].
    left. rewrite Hcase in HF. by eexists.
Qed.

(** X3. A call of [pkgdb_query] in the run means that [pkgdb_access] and
    [pkgdb_open] both answered [EPKG_OK] before, and that no [-F] was
    given: a database that cannot be read, is absent or does not open is
    never queried, and neither is any database in file mode. *)
Theorem query_needs_open_database K w inv e :
  e ∈ (exec_info K w inv).2 -> is_query e ->
  pkgdb_access w = EPKG_OK /\ pkgdb_open w = EPKG_OK /\
  "F"%char ∉ options inv.
Proof.
  rewrite exec_info_prologue.
  pose proof (prologue_no_cursor K w inv) as Hn.
  pose proof (prologue_spec K w inv) as Hp.
  destruct (prologue K w inv) as [s|c s]; simpl.
  2:{ intros Hin Hq. rewrite Forall_forall in Hn. specialize (Hn _ Hin).
      by destruct e. }
  intros _ _. destruct Hp as (s0 & Hs0 & Hsel & Hf & Ha & Ho).
  split_and!; try done. intros HF.
  pose proof (getopt_loop_file K (getopt_seq inv) (init K inv)) as Hg.
  rewrite Hs0 in Hg. destruct Hg as [f Hf0]; [by right|].
  pose proof (select_mode_spec K (argc_of inv) (length (args inv)) s0) as Hm.
  rewrite Hsel in Hm. unfold kept_by_mode in Hm.
  injection Hm as ????????????. congruence.
Qed.

(** [pkg info foo]: the query of the run, on a database that is there. *)
Lemma query_needs_open_database_witness :
  let inv := command [] ["foo"%string] in
  let e := EvQuery (Some "foo"%string) MATCH_GLOB in
  (e ∈ (exec_info pkgcli_h installed inv).2 /\ is_query e) /\
  pkgdb_access installed = EPKG_OK /\ pkgdb_open installed = EPKG_OK /\
  "F"%char ∉ options inv.
Proof.
  intros inv e.
  assert (e ∈ (exec_info pkgcli_h installed inv).2) as Hin.
  { vm_compute. by left. }
  split; [by split|].
  apply (query_needs_open_database pkgcli_h installed inv e Hin I).
Defined.

(** ** File mode *)

Lemma select_mode_with_file K argc0 argc s :
  is_Some (file s) ->
  exists s1, select_mode K argc0 argc s = Next s1 /\ file s1 = file s /\
             out s1 = out s.
Proof.
  intros [f Hf].
  pose proof (select_mode_spec K argc0 argc s) as Hm.
  destruct (select_mode K argc0 argc s) as [s1|c s1] eqn:Hsel.
  - exists s1. unfold kept_by_mode in Hm. injection Hm as ????????????. done.
  - exfalso. unfold select_mode, select_categories in Hsel.
    destruct (force_all_spec argc0 s) as (Hk & _).
    unfold kept_by_mode in Hk. injection Hk as ????????????.
    rewrite decide_False in Hsel; [done|].
    intros (_ & Hnone & _). congruence.
Qed.

(** X4. Under [-F], with options that getopt accepts, [exec_info] depends
    on the world through [pkg_open] alone: it returns 0 after handing the
    package of the file to [print_info], or 1 without printing when the
    file cannot be opened, and the database is not consulted. *)
Theorem file_mode_ignores_database K w inv :
  "F"%char ∈ options inv ->
  (exists s0, getopt_loop K (getopt_seq inv) (init K inv) = Next s0) ->
  ((exec_info K w inv).1 = 0%Z \/ (exec_info K w inv).1 = 1%Z) /\
  ((exec_info K w inv).1 = 0%Z <-> Exists is_print (exec_info K w inv).2) /\
  (forall w', pkg_open w' = pkg_open w ->
     exec_info K w' inv = exec_info K w inv).
Proof.
  intros HF [s0 Hs0].
  pose proof (getopt_loop_file K (getopt_seq inv) (init K inv)) as Hg.
  pose proof (getopt_loop_spec K (getopt_seq inv) (init K inv)) as Hsp.
  rewrite Hs0 in Hg, Hsp. specialize (Hg (or_intror HF)).
  destruct Hsp as (_ & _ & _ & _ & _ & _ & _ & _ & _ & _ & evs0 & Hout0 & Hnp0).
  simpl in Hout0.
  destruct (select_mode_with_file K (argc_of inv) (length (args inv)) s0 Hg)
    as (s1 & Hsel & Hf1 & Hout1).
  assert (forall w0, exec_info K w0 inv = finish (file_mode K w0 s1)) as Hex.
  { intros w0. unfold exec_info, query_path. rewrite Hs0. simpl.
    rewrite Hsel. simpl.
    pose proof (file_mode_spec K w0 s1) as Hfm.
    destruct (file_mode K w0 s1); [|done].
    destruct Hfm as [_ Hnone]. rewrite Hf1 in Hnone.
    destruct Hg as [? Hg]. congruence. }
  assert (Forall not_print (out s1)) as Hnp1 by congruence.
  split_and!.
  - rewrite Hex. pose proof (file_mode_spec K w s1) as Hfm.
    destruct (file_mode K w s1) as [s2|c s2]; simpl.
    + destruct Hfm as [_ Hnone]. rewrite Hf1 in Hnone.
      destruct Hg as [? Hg]. congruence.
    + destruct Hfm as (f & fl & _ & [[-> _]|(? & ? & ? & -> & _)]); auto.
  - rewrite Hex. pose proof (file_mode_spec K w s1) as Hfm.
    destruct (file_mode K w s1) as [s2|c s2]; simpl.
    + destruct Hfm as [_ Hnone]. rewrite Hf1 in Hnone.
      destruct Hg as [? Hg]. congruence.
    + destruct Hfm as (f & fl & _ & [[-> ->]|(p & o & q & -> & _ & ->)]).
      * split; [done|]. intros Hex'. exfalso.
        apply Exists_app in Hex' as [Hex'|Hex'].
        -- apply Exists_exists in Hex' as (e & Hin & He).
           rewrite Forall_forall in Hnp1. by apply (Hnp1 e Hin).
        -- apply Exists_cons in Hex' as [[]|Hex']. by apply Exists_nil in Hex'.
      * split; [intros _|done].
        apply Exists_app. right. apply Exists_cons. right.
        apply Exists_cons. by left.
  - intros w' Hopen. rewrite !Hex. unfold file_mode. by rewrite Hopen.
Qed.

(** [pkg info -F foo.txz] where the file cannot be opened: status 1. *)
Lemma file_mode_ignores_database_witness :
  let inv := {| getopt_seq := [("F"%char, "foo.txz"%string)]; optind := 3;
                args := []; quiet0 := false |} in
  ("F"%char ∈ options inv /\
   exists s0, getopt_loop pkgcli_h (getopt_seq inv) (init pkgcli_h inv)
              = Next s0) /\
  (exec_info pkgcli_h installed inv).1 = 1%Z.
Proof.
  intros inv.
  assert ("F"%char ∈ options inv) as H1 by (by left).
  assert (exists s0, getopt_loop pkgcli_h (getopt_seq inv) (init pkgcli_h inv)
                     = Next s0) as H2 by (by eexists).
  split; [by split|].
  destruct (file_mode_ignores_database pkgcli_h installed inv H1 H2)
    as ([H|H] & _); [discriminate H | exact H].
Defined.

(** ** Listing all packages *)

Lemma disclose_seed K argc i s :
  let s2 := disclose K argc i
              (if origin_search s then set_gotone true s else s) in
  out s2 = out s /\ retcode s2 = retcode s.
Proof.
  simpl. unfold disclose. destruct (origin_search s); by case_decide.
Qed.

Lemma iterate_match_all K w argc i it s :
  match_mode s = MATCH_ALL ->
  out (iterate K w argc i it s) = out (after_loop K w argc i it s) ++ [EvItFree] /\
  retcode (iterate K w argc i it s) =
    (if decide (it_last it ≠ EPKG_END) then EX_IOERR
     else retcode (after_loop K w argc i it s)).
Proof.
  intros Hm.
  destruct (fixed_after_loop K w argc i it s) as (_ & Hm3 & _).
  unfold iterate. fold (after_loop K w argc i it s).
  set (s3 := after_loop K w argc i it s) in *. clearbody s3.
  destruct (decide (it_last it ≠ EPKG_END)); simpl; [done|].
  rewrite decide_False; [done|]. intros (_ & _ & Hne). congruence.
Qed.

Lemma spec_body_match_all K w argc i s :
  match_mode s = MATCH_ALL ->
  match spec_body K w argc i s with
  | Next s' =>
      match_mode s' = MATCH_ALL /\
      retcode s' ∈ [retcode s; EX_OK; EX_IOERR] /\
      (forall e, e ∈ out s' -> is_warnx e -> e ∈ out s)
  | Return c s' =>
      c = EX_IOERR /\ (forall e, e ∈ out s' -> is_warnx e -> e ∈ out s)
  end.
Proof.
  intros Hm. unfold spec_body. cbv zeta.
  destruct (modes_parse argc i s) as (Hmo & Hr & Hout & _).
  set (s1 := if decide (0 < argc)%nat
             then scan_specifier i (strip_slash argc i (set_gotone false s))
             else strip_slash argc i (set_gotone false s)) in *.
  assert (match_mode s1 = MATCH_ALL) as Hm1.
  { unfold modes in Hmo. injection Hmo as ??????. congruence. }
  clearbody s1.
  rewrite decide_False by (intros [? _]; congruence).
  destruct (pkgdb_query w _ _) as [it|].
  2:{ split; [done|]. simpl. rewrite Hout. intros e Hin Hw.
      apply elem_of_app in Hin as [?|Hin]; [done|].
      apply list_elem_of_singleton in Hin. by subst. }
  set (s2 := emit (EvQuery (pkgname i s1) (match_mode s1)) s1).
  destruct (iterate_match_all K w argc i it s2 Hm1) as [Ho Hrc].
  destruct (iterate_tail K w argc i it s2) as ((_ & _ & Hm' & _) & _).
  destruct (fixed_after_loop K w argc i it s2) as (_ & Hm3 & _).
  split_and!.
  - rewrite Hm', Hm3. exact Hm1.
  - rewrite Hrc. case_decide; [list_mem|].
    unfold after_loop.
    destruct (retcode_it_loop_cases w (it_pkgs it)
                (disclose K argc i
                   (if origin_search s2 then set_gotone true s2 else s2)))
      as [-> | ->]; [|list_mem].
    replace (retcode (disclose K argc i
               (if origin_search s2 then set_gotone true s2 else s2)))
      with (retcode s).
    + list_mem.
    + destruct (disclose_seed K argc i s2) as [_ ->]. by rewrite <- Hr.
  - intros e Hin Hw. rewrite Ho in Hin.
    apply elem_of_app in Hin as [Hin|Hin];
      [|apply list_elem_of_singleton in Hin; by subst].
    unfold after_loop in Hin.
    destruct (out_it_loop w (it_pkgs it)
                (disclose K argc i
                   (if origin_search s2 then set_gotone true s2 else s2)))
      as (evs & Hevs & Hall).
    rewrite Hevs in Hin. apply elem_of_app in Hin as [Hin|Hin].
    + replace (out (disclose K argc i
                 (if origin_search s2 then set_gotone true s2 else s2)))
        with (out s ++ [EvQuery (pkgname i s1) (match_mode s1)]) in Hin.
      * apply elem_of_app in Hin as [?|Hin]; [done|].
        apply list_elem_of_singleton in Hin. by subst.
      * destruct (disclose_seed K argc i s2) as [-> _]. subst s2. simpl.
        by rewrite Hout.
    + rewrite Forall_forall in Hall. destruct (Hall _ Hin) as [p ->]. done.
Qed.

(** X5. Under [MATCH_ALL] the no-match error does not exist: whatever the
    cursors yield, the specifier loop never warns and never sets the
    software-error code; the status stays, or becomes success (under [-e])
    or the I/O-error code. *)
Theorem match_all_never_reports_no_match K w argc rest i s :
  match_mode s = MATCH_ALL ->
  match do_while K w argc rest i s with
  | Next s' =>
      retcode s' ∈ [retcode s; EX_OK; EX_IOERR] /\
      (forall e, e ∈ out s' -> is_warnx e -> e ∈ out s)
  | Return c s' =>
      c = EX_IOERR /\ (forall e, e ∈ out s' -> is_warnx e -> e ∈ out s)
  end.
Proof.
  revert i s. induction rest as [|rest IH]; intros i s Hm; simpl;
    pose proof (spec_body_match_all K w argc i s Hm) as Hb;
    destruct (spec_body K w argc i s) as [s1|c s1]; simpl;
    try (by destruct Hb as (? & ? & ?)); try done.
  destruct Hb as (Hm1 & Hr1 & Hw1). specialize (IH (S i) s1 Hm1).
  destruct (do_while K w argc rest (S i) s1) as [s'|c s'].
  - destruct IH as [Hr Hw]. split; [list_mem | eauto].
  - destruct IH as [Hr Hw]. split; [done | eauto].
Qed.

(** [pkg info -a] on the sample database: two records, no warning, status
    0. *)
Lemma match_all_never_reports_no_match_witness :
  let s := set_match MATCH_ALL (init pkgcli_h (command ["a"%char] [])) in
  match_mode s = MATCH_ALL /\
  match do_while pkgcli_h installed 0 0 0 s with
  | Next s' =>
      retcode s' ∈ [retcode s; EX_OK; EX_IOERR] /\
      (forall e, e ∈ out s' -> is_warnx e -> e ∈ out s)
  | Return c s' =>
      c = EX_IOERR /\ (forall e, e ∈ out s' -> is_warnx e -> e ∈ out s)
  end.
Proof.
  intros s. split; [reflexivity|].
  apply (match_all_never_reports_no_match pkgcli_h installed 0 0 0 s).
  reflexivity.
Defined.

(** ** The exists-only answer *)

(** X6. Under [-e], with the status still 1 and no version constraint, a
    query whose cursor ends cleanly answers success when the cursor yields
    a record and 1 when it yields none: "not found" is 1, not the
    software-error code. *)
Theorem exists_only_answer K w argc i it s :
  pkg_exists s = true -> retcode s = 1%Z ->
  pkgversion s = None -> pkgversion2 s = None ->
  it_last it = EPKG_END ->
  retcode (iterate K w argc i it s) =
    match it_pkgs it with [] => 1%Z | _ => EX_OK end.
Proof.
  intros He Hr Hv Hv2 Hend.
  destruct (iterate_tail K w argc i it s) as (_ & _ & _ & Hret).
  set (s2 := disclose K argc i
               (if origin_search s then set_gotone true s else s)).
  assert (pkg_exists s2 = true /\ retcode s2 = 1%Z /\ pkgversion s2 = None /\
          pkgversion2 s2 = None) as (He2 & Hr2 & Hv' & Hv2').
  { subst s2. unfold disclose.
    destruct (origin_search s); by case_decide. }
  destruct (it_pkgs it) as [|p l] eqn:Hl.
  - unfold iterate. rewrite Hl. simpl. fold s2.
    destruct (decide (it_last it ≠ EPKG_END)) as [Hn|_]; [done|].
    rewrite decide_False; [done|]. rewrite Hr2. by intros [? _].
  - rewrite Hret; [|done|].
    + unfold after_loop. rewrite Hl. fold s2.
      assert (Exists (fun p => keeps w (pkg_version p) s2 = true) (p :: l))
        as Hex.
      { apply Exists_cons. left. by apply keeps_unconstrained. }
      revert Hex. generalize (p :: l). intros l' Hex.
      clear Hret Hl.
      revert s2 He2 Hr2 Hv' Hv2' Hex.
      induction l' as [|q l' IH]; intros s2 He2 Hr2 Hv' Hv2' Hex;
        [by apply Exists_nil in Hex|].
      simpl. apply retcode_it_loop_ok.
      * pose proof (fixed_candidate w q s2) as Hf. fixed_fields Hf. congruence.
      * apply retcode_candidate_kept; [done|]. by apply keeps_unconstrained.
    + unfold after_loop. rewrite Hl. fold s2.
      by rewrite gotone_it_loop_unconstrained.
Qed.

(** [pkg info -e] for a name that the database does not have: 1. *)
Lemma exists_only_answer_witness :
  let s := set_retcode 1 (set_pkg_exists true
             (init pkgcli_h (command ["e"%char] ["nosuch"%string]))) in
  let it := {| it_pkgs := []; it_last := EPKG_END |} in
  (pkg_exists s = true /\ retcode s = 1%Z /\ pkgversion s = None /\
   pkgversion2 s = None /\ it_last it = EPKG_END) /\
  retcode (iterate pkgcli_h installed 1 0 it s) = 1%Z.
Proof.
  intros s it. split; [by split_and!|].
  apply (exists_only_answer pkgcli_h installed 1 0 it s); reflexivity.
Defined.

(** * Further properties of the specifier scan *)

(** ** C strings *)

Lemma cstr_app_nonul (l r : list ascii) :
  Forall (fun c => c ≠ NUL) l -> cstr (l ++ r) = l ++ cstr r.
Proof.
  induction 1 as [|c l Hc _ IH]; simpl; [done|].
  rewrite decide_False by done. by rewrite IH.
Qed.

Lemma cstr_decomp (b : list ascii) :
  exists r, b = cstr b ++ r /\ Forall (fun c => c ≠ NUL) (cstr b) /\
            (r = [] \/ exists r', r = NUL :: r').
Proof.
  induction b as [|c b (r & Hb & Hn & Hr)]; simpl.
  - exists []. split_and!; auto.
  - case_decide as Hc.
    + subst c. exists (NUL :: b). split_and!; eauto.
    + exists r. split_and!; [by simpl; f_equal | by constructor | done].
Qed.

Lemma cstr_nonul_id (l : list ascii) :
  Forall (fun c => c ≠ NUL) l -> cstr l = l.
Proof.
  intros H. rewrite <- (app_nil_r l) at 1.
  rewrite cstr_app_nonul by done. simpl. apply app_nil_r.
Qed.

Lemma word_nonul (l : list ascii) : word l -> Forall (fun c => c ≠ NUL) l.
Proof. intros H. eapply Forall_impl; [exact H|]. by intros c [? _]. Qed.

Lemma peek_app i s (l r : list ascii) k :
  buffer i s = l ++ r -> peek i (length l + k) s = default NUL (r !! k).
Proof.
  intros Hb. rewrite peek_buffer, Hb.
  rewrite lookup_app_r by lia. do 2 f_equal. lia.
Qed.

(** ** What the scan writes *)

Lemma buffer_split base upgraded i j s :
  buffer i (split base upgraded i j s).1 = <[j:=NUL]> (buffer i s) /\
  forall i', i ≠ i' -> buffer i' (split base upgraded i j s).1 = buffer i' s.
Proof.
  unfold split. split.
  - repeat case_match; simpl;
      match goal with
      | |- buffer i ?t = _ => change (buffer i t) with (buffer i (poke i j NUL s))
      end; apply buffer_poke_eq.
  - intros i' Hne. repeat case_match; simpl;
      match goal with
      | |- buffer i' ?t = _ =>
          change (buffer i' t) with (buffer i' (poke i j NUL s))
      end; by apply buffer_poke_ne.
Qed.

Lemma is_op_not_nul c : is_op c -> c ≠ NUL.
Proof. intros [-> |[-> | ->]]; done. Qed.

(** One turn of the loop at an operator character. *)
Lemma scan_step_op fuel i j s :
  is_op (peek i j s) ->
  scan (S fuel) i j s =
    scan fuel i
      (S (split (branch_of (peek i j s)).1 (branch_of (peek i j s)).2 i j s).2)
      (split (branch_of (peek i j s)).1 (branch_of (peek i j s)).2 i j s).1.
Proof.
  intros Hop. simpl. rewrite decide_False by (by apply is_op_not_nul).
  unfold branch_of.
  destruct (decide (peek i j s = "<"%char)) as [H1|H1]; simpl.
  { by destruct (split LT LE i j s). }
  destruct (decide (peek i j s = ">"%char)) as [H2|H2]; simpl.
  { by destruct (split GT GE i j s). }
  rewrite decide_True by (by destruct Hop as [?|[?|?]]).
  by destruct (split EQ EQ i j s).
Qed.

(** One turn of the loop at any other character. *)
Lemma scan_step_other fuel i j s :
  peek i j s ≠ NUL -> ~ is_op (peek i j s) ->
  scan (S fuel) i j s = scan fuel i (S j) s.
Proof.
  intros Hn Hop. simpl. rewrite decide_False by done.
  rewrite !decide_False; [done|..]; intros H; apply Hop; unfold is_op; auto.
Qed.

Lemma scan_writes fuel i j s :
  length (buffer i (scan fuel i j s)) = length (buffer i s) /\
  (forall k, buffer i (scan fuel i j s) !! k = buffer i s !! k \/
             ((j <= k)%nat /\ is_op (peek i k s) /\
              buffer i (scan fuel i j s) !! k = Some NUL)) /\
  (forall i', i ≠ i' -> buffer i' (scan fuel i j s) = buffer i' s).
Proof.
  revert j s. induction fuel as [|fuel IH]; intros j s; [by auto|].
  destruct (decide (peek i j s = NUL)) as [Hn|Hn].
  { simpl. rewrite decide_True by done. auto. }
  destruct (decide (is_op (peek i j s))) as [Hop|Hop].
  2:{ rewrite scan_step_other by done.
      destruct (IH (S j) s) as (Hl & Hk & Ho). split_and!; [done| |done].
      intros k. destruct (Hk k) as [?|(? & ? & ?)]; [by left|].
      right. split_and!; [lia|done|done]. }
  rewrite scan_step_op by done.
  set (r := split (branch_of (peek i j s)).1 (branch_of (peek i j s)).2 i j s).
  destruct (buffer_split (branch_of (peek i j s)).1
              (branch_of (peek i j s)).2 i j s) as [Hb Hbo].
  fold r in Hb, Hbo.
  pose proof (split_advance (branch_of (peek i j s)).1
                (branch_of (peek i j s)).2 i j s) as Hadv.
  fold r in Hadv.
  destruct (IH (S r.2) r.1) as (Hl & Hk & Ho).
  split_and!.
  - rewrite Hl, Hb. apply length_insert.
  - intros k. destruct (Hk k) as [Hk1|(Hle & Hopk & Hk1)].
    + rewrite Hk1, Hb. destruct (decide (k = j)) as [->|Hne].
      * right. split_and!; [lia|done|].
        apply list_lookup_insert_eq.
        destruct (decide (j < length (buffer i s))%nat); [done|].
        rewrite peek_out_of_range in Hn by lia. done.
      * left. by rewrite list_lookup_insert_ne.
    + right. split_and!; [lia| |done].
      rewrite peek_buffer in *. rewrite Hb in Hopk.
      by rewrite list_lookup_insert_ne in Hopk by lia.
  - intros i' Hne. rewrite Ho by done. by apply Hbo.
Qed.

(** X7. The scan of [argv[i]] writes nothing but terminators, and only
    over operator characters of that string: the string keeps its length,
    every byte of it is as before or was an operator character and is now
    the terminator, and the other arguments are untouched. *)
Theorem scan_writes_terminators_over_operators i s :
  length (buffer i (scan_specifier i s)) = length (buffer i s) /\
  (forall k, buffer i (scan_specifier i s) !! k = buffer i s !! k \/
             (is_op (peek i k s) /\
              buffer i (scan_specifier i s) !! k = Some NUL)) /\
  (forall i', i ≠ i' -> buffer i' (scan_specifier i s) = buffer i' s).
Proof.
  unfold scan_specifier.
  destruct (scan_writes (S (length (buffer i s))) i 0 s) as (Hl & Hk & Ho).
  split_and!; [done| |done].
  intros k. destruct (Hk k) as [?|(_ & ? & ?)]; auto.
Qed.

(** ** The name *)

Lemma scan_name fuel i s (pre rest : list ascii) :
  buffer i s = pre ++ rest -> word pre -> (length rest < fuel)%nat ->
  cstr (buffer i (scan fuel i (length pre) s)) = pre ++ name_part rest.
Proof.
  revert s pre rest.
  induction fuel as [|fuel IH]; intros s pre rest Hb Hw Hf; [lia|].
  pose proof (peek_app i s pre rest 0 Hb) as Hp.
  rewrite Nat.add_0_r in Hp.
  destruct rest as [|c rest]; simpl in Hp.
  { simpl. rewrite decide_True by done. rewrite Hb.
    rewrite cstr_app_nonul by (by apply word_nonul). done. }
  destruct (decide (c = NUL)) as [HN|HN].
  { simpl. rewrite (decide_True _ _ (eq_trans Hp HN)). rewrite Hb.
    rewrite cstr_app_nonul by (by apply word_nonul). simpl.
    rewrite decide_True by done. rewrite decide_True by (by left). done. }
  destruct (decide (is_op c)) as [Hop|Hop].
  - rewrite scan_step_op by (by rewrite Hp).
    set (r := split (branch_of (peek i (length pre) s)).1
                    (branch_of (peek i (length pre) s)).2 i (length pre) s).
    destruct (buffer_split (branch_of (peek i (length pre) s)).1
                (branch_of (peek i (length pre) s)).2 i (length pre) s)
      as [Hb1 _].
    fold r in Hb1.
    pose proof (split_advance (branch_of (peek i (length pre) s)).1
                  (branch_of (peek i (length pre) s)).2 i (length pre) s)
      as Hadv.
    fold r in Hadv.
    destruct (scan_writes fuel i (S r.2) r.1) as (Hl & Hk & _).
    assert (buffer i r.1 = pre ++ NUL :: rest) as Hb1'.
    { rewrite Hb1, Hb. rewrite insert_app_r_alt by lia.
      by rewrite Nat.sub_diag. }
    assert (take (S (length pre)) (buffer i (scan fuel i (S r.2) r.1)) =
            pre ++ [NUL]) as Ht.
    { apply list_eq. intros k.
      destruct (decide (k < S (length pre))%nat) as [Hlt|Hge].
      - rewrite lookup_take_lt by done.
        destruct (Hk k) as [->|(? & _)]; [|lia].
        rewrite Hb1'. rewrite cons_middle, app_assoc.
        by rewrite (lookup_app_l (pre ++ [NUL])) by (rewrite length_app; simpl; lia).
      - rewrite lookup_take_ge by lia.
        by rewrite lookup_ge_None_2 by (rewrite length_app; simpl; lia). }
    rewrite <- (take_drop (S (length pre)) (buffer i (scan fuel i (S r.2) r.1))).
    rewrite Ht, <- app_assoc. rewrite cstr_app_nonul by (by apply word_nonul).
    simpl. by rewrite decide_True by (by right).
  - rewrite scan_step_other by (by rewrite Hp).
    specialize (IH s (pre ++ [c]) rest).
    rewrite length_app in IH. simpl in IH.
    replace (length pre + 1)%nat with (S (length pre)) in IH by lia.
    rewrite IH.
    + simpl. rewrite decide_False by (intros [?|?]; done).
      by rewrite <- app_assoc.
    + by rewrite <- app_assoc.
    + apply Forall_app. split; [done|]. by repeat constructor.
    + simpl in Hf. lia.
Qed.

Lemma name_part_word (b : list ascii) : word (name_part b).
Proof.
  induction b as [|c b IH]; simpl; [constructor|].
  case_decide as Hc; [constructor|].
  constructor; [|done]. split; intros ?; apply Hc; auto.
Qed.

Lemma scan_specifier_name i s :
  cstr (buffer i (scan_specifier i s)) = name_part (buffer i s).
Proof.
  unfold scan_specifier.
  apply (scan_name (S (length (buffer i s))) i s [] (buffer i s));
    [done | constructor | lia].
Qed.

(** X8. After the scan the name (the string at [argv[i]]) is the longest
    prefix of the argument without an operator character, so it has none
    of [<], [>], [=] in it, whatever the rest of the argument is. *)
Theorem name_has_no_operator i s :
  cstr (buffer i (scan_specifier i s)) = name_part (buffer i s) /\
  word (cstr (buffer i (scan_specifier i s))).
Proof.
  split; [apply scan_specifier_name|].
  rewrite scan_specifier_name. apply name_part_word.
Qed.

(** ** One constraint *)

Lemma scan_skip fuel i j s :
  (forall k, (j <= k)%nat -> ~ is_op (peek i k s)) -> scan fuel i j s = s.
Proof.
  revert j. induction fuel as [|fuel IH]; intros j Hk; [done|].
  destruct (decide (peek i j s = NUL)) as [Hn|Hn].
  { simpl. by rewrite decide_True. }
  rewrite scan_step_other; [|done|by apply Hk].
  apply IH. intros k Hle. apply Hk. lia.
Qed.

Lemma scan_word fuel i s (pre mid rest : list ascii) :
  buffer i s = pre ++ mid ++ rest -> word mid ->
  scan (length mid + fuel) i (length pre) s =
  scan fuel i (length pre + length mid) s.
Proof.
  revert pre. induction mid as [|c mid IH]; intros pre Hb Hw.
  { simpl. by rewrite Nat.add_0_r. }
  apply Forall_cons in Hw as [[Hn Hop] Hw].
  pose proof (peek_app i s pre (c :: mid ++ rest) 0 Hb) as Hp.
  rewrite Nat.add_0_r in Hp. simpl in Hp.
  change (length (c :: mid) + fuel)%nat with (S (length mid + fuel)).
  rewrite scan_step_other by (by rewrite Hp).
  specialize (IH (pre ++ [c])).
  rewrite length_app in IH. simpl in IH.
  replace (length pre + 1)%nat with (S (length pre)) in IH by lia.
  rewrite IH; [|by rewrite <- app_assoc|done].
  f_equal. simpl. lia.
Qed.

Lemma scan_word0 fuel i s (mid rest : list ascii) :
  buffer i s = mid ++ rest -> word mid ->
  scan (length mid + fuel) i 0 s = scan fuel i (length mid) s.
Proof. intros Hb Hw. by apply (scan_word fuel i s [] mid rest). Qed.

Lemma name_part_app (name : list ascii) c r :
  word name -> is_op c -> name_part (name ++ c :: r) = name.
Proof.
  intros Hw Hop. induction Hw as [|x name [Hx1 Hx2] _ IH]; simpl.
  - by rewrite decide_True by (by right).
  - rewrite decide_False by (intros [?|?]; done). by rewrite IH.
Qed.

Lemma word_not_op_from i s (l ver : list ascii) n :
  buffer i s = l ++ ver -> length l = n -> word ver ->
  forall k, (n <= k)%nat -> ~ is_op (peek i k s).
Proof.
  intros Hb <- Hw k Hle.
  replace k with (length l + (k - length l))%nat by lia.
  rewrite (peek_app i s l ver _ Hb).
  destruct (ver !! (k - length l)%nat) as [c|] eqn:Hc; simpl.
  - by destruct (Forall_lookup_1 _ _ _ _ Hw Hc).
  - intros [?|[?|?]]; done.
Qed.

(** The scan of [name c ver] with [c] an operator character that no [=]
    follows, in a state without a first constraint. *)
Lemma scan_single_bare i s (name ver : list ascii) c :
  buffer i s = name ++ c :: ver -> is_op c -> word name -> word ver ->
  pkgversion s = None ->
  scan_specifier i s =
    set_pkgversion (Some (i, S (length name)))
      (poke i (length name) NUL (set_sign (branch_of c).1 s)).
Proof.
  intros Hb Hop Hwn Hwv Hv. unfold scan_specifier.
  replace (S (length (buffer i s)))
    with (length name + S (length (c :: ver)))%nat
    by (rewrite Hb, length_app; lia).
  rewrite (scan_word0 _ i s name (c :: ver)) by done.
  pose proof (peek_app i s name (c :: ver) 0 Hb) as Hp.
  rewrite Nat.add_0_r in Hp. simpl in Hp.
  rewrite scan_step_op by (by rewrite Hp). rewrite Hp.
  set (s1 := poke i (length name) NUL (set_sign (branch_of c).1 s)).
  assert (buffer i s1 = name ++ NUL :: ver) as Hb1.
  { subst s1.
    change (buffer i (poke i (length name) NUL (set_sign (branch_of c).1 s)))
      with (buffer i (poke i (length name) NUL s)).
    rewrite buffer_poke_eq, Hb, insert_app_r_alt by lia.
    by rewrite Nat.sub_diag. }
  assert (peek i (S (length name)) s1 ≠ "="%char) as Hne.
  { replace (S (length name)) with (length name + 1)%nat by lia.
    rewrite (peek_app i s1 name (NUL :: ver) 1 Hb1). simpl.
    destruct ver as [|x ver]; simpl; [done|].
    apply Forall_cons in Hwv as [[_ Hx] _]. intros ->. apply Hx.
    unfold is_op. auto. }
  assert (split (branch_of c).1 (branch_of c).2 i (length name) s =
          (set_pkgversion (Some (i, S (length name))) s1, length name)) as Hs.
  { unfold split. rewrite Hv. fold s1. by rewrite decide_False. }
  rewrite Hs. cbn [fst snd]. apply scan_skip.
  apply (word_not_op_from i _ (name ++ [NUL]) ver).
  - change (buffer i (set_pkgversion (Some (i, S (length name))) s1))
      with (buffer i s1).
    by rewrite Hb1, <- app_assoc.
  - rewrite length_app. simpl. lia.
  - done.
Qed.

(** The same with [=] after the operator character. *)
Lemma scan_single_eq i s (name ver : list ascii) c :
  buffer i s = name ++ c :: "="%char :: ver -> is_op c ->
  word name -> word ver -> pkgversion s = None ->
  scan_specifier i s =
    set_sign (branch_of c).2
      (set_pkgversion (Some (i, S (S (length name))))
         (poke i (length name) NUL (set_sign (branch_of c).1 s))).
Proof.
  intros Hb Hop Hwn Hwv Hv. unfold scan_specifier.
  replace (S (length (buffer i s)))
    with (length name + S (length (c :: "="%char :: ver)))%nat
    by (rewrite Hb, length_app; lia).
  rewrite (scan_word0 _ i s name (c :: "="%char :: ver)) by done.
  pose proof (peek_app i s name (c :: "="%char :: ver) 0 Hb) as Hp.
  rewrite Nat.add_0_r in Hp. simpl in Hp.
  rewrite scan_step_op by (by rewrite Hp). rewrite Hp.
  set (s1 := poke i (length name) NUL (set_sign (branch_of c).1 s)).
  assert (buffer i s1 = name ++ NUL :: "="%char :: ver) as Hb1.
  { subst s1.
    change (buffer i (poke i (length name) NUL (set_sign (branch_of c).1 s)))
      with (buffer i (poke i (length name) NUL s)).
    rewrite buffer_poke_eq, Hb, insert_app_r_alt by lia.
    by rewrite Nat.sub_diag. }
  assert (peek i (S (length name)) s1 = "="%char) as He.
  { replace (S (length name)) with (length name + 1)%nat by lia.
    by rewrite (peek_app i s1 name (NUL :: "="%char :: ver) 1 Hb1). }
  assert (split (branch_of c).1 (branch_of c).2 i (length name) s =
          (set_sign (branch_of c).2
             (set_pkgversion (Some (i, S (S (length name)))) s1),
           S (length name))) as Hs.
  { unfold split. rewrite Hv. fold s1. by rewrite decide_True. }
  rewrite Hs. cbn [fst snd]. apply scan_skip.
  apply (word_not_op_from i _ (name ++ [NUL; "="%char]) ver).
  - change (buffer i (set_sign (branch_of c).2
              (set_pkgversion (Some (i, S (S (length name)))) s1)))
      with (buffer i s1).
    by rewrite Hb1, <- app_assoc.
  - rewrite length_app. simpl. lia.
  - done.
Qed.

Lemma string_at_drop i n s (pre ver : list ascii) :
  buffer i s = pre ++ ver -> length pre = n ->
  Forall (fun c => c ≠ NUL) ver ->
  string_at (i, n) s = string_of_list_ascii ver.
Proof.
  intros Hb <- Hn. unfold string_at. simpl.
  change (default [] (argv s !! i)) with (buffer i s).
  rewrite Hb, drop_app_length. by rewrite cstr_nonul_id.
Qed.

(** X9. Reading back one constraint.  For a name and a version without
    operator characters, and each of the five signs written as [<], [<=],
    [>], [>=], [=], the scan of name-sign-version in a state without a
    first constraint leaves the name at [argv[i]], the sign in [sign], the
    version behind [pkgversion], and the second slot as it was. *)
Theorem scan_reads_one_constraint i s sg (name ver : list ascii) :
  buffer i s = name ++ render_sign sg ++ ver ->
  word name -> word ver -> pkgversion s = None ->
  let s' := scan_specifier i s in
  cstr (buffer i s') = name /\
  sign s' = sg /\
  (exists p, pkgversion s' = Some p /\
             string_at p s' = string_of_list_ascii ver) /\
  pkgversion2 s' = pkgversion2 s /\ sign2 s' = sign2 s.
Proof.
  intros Hb Hwn Hwv Hv s'.
  assert (exists c r, render_sign sg ++ ver = c :: r /\ is_op c)
    as (c & r & Hr & Hop).
  { destruct sg; simpl; eexists _, _; (split; [done|]); unfold is_op; auto. }
  assert (cstr (buffer i s') = name) as Hname.
  { subst s'. rewrite scan_specifier_name.
    rewrite Hb, Hr. by apply name_part_app. }
  split; [done|].
  destruct sg; simpl in Hb.
  - pose proof (scan_single_bare i s name ver "<"%char Hb) as Hs.
    fold s' in Hs. rewrite Hs; [|unfold is_op; auto|done..].
    split; [done|]. split; [|done]. eexists. split; [done|].
    apply (string_at_drop i _ _ (name ++ [NUL]) ver);
      [|rewrite length_app; simpl; lia | by apply word_nonul].
    change (buffer i (poke i (length name) NUL s) = (name ++ [NUL]) ++ ver).
    rewrite buffer_poke_eq, Hb, insert_app_r_alt by lia.
    by rewrite Nat.sub_diag, <- app_assoc.
  - pose proof (scan_single_eq i s name ver "<"%char Hb) as Hs.
    fold s' in Hs. rewrite Hs; [|unfold is_op; auto|done..].
    split; [done|]. split; [|done]. eexists. split; [done|].
    apply (string_at_drop i _ _ (name ++ [NUL; "="%char]) ver);
      [|rewrite length_app; simpl; lia | by apply word_nonul].
    change (buffer i (poke i (length name) NUL s)
            = (name ++ [NUL; "="%char]) ++ ver).
    rewrite buffer_poke_eq, Hb, insert_app_r_alt by lia.
    by rewrite Nat.sub_diag, <- app_assoc.
  - pose proof (scan_single_bare i s name ver ">"%char Hb) as Hs.
    fold s' in Hs. rewrite Hs; [|unfold is_op; auto|done..].
    split; [done|]. split; [|done]. eexists. split; [done|].
    apply (string_at_drop i _ _ (name ++ [NUL]) ver);
      [|rewrite length_app; simpl; lia | by apply word_nonul].
    change (buffer i (poke i (length name) NUL s) = (name ++ [NUL]) ++ ver).
    rewrite buffer_poke_eq, Hb, insert_app_r_alt by lia.
    by rewrite Nat.sub_diag, <- app_assoc.
  - pose proof (scan_single_eq i s name ver ">"%char Hb) as Hs.
    fold s' in Hs. rewrite Hs; [|unfold is_op; auto|done..].
    split; [done|]. split; [|done]. eexists. split; [done|].
    apply (string_at_drop i _ _ (name ++ [NUL; "="%char]) ver);
      [|rewrite length_app; simpl; lia | by apply word_nonul].
    change (buffer i (poke i (length name) NUL s)
            = (name ++ [NUL; "="%char]) ++ ver).
    rewrite buffer_poke_eq, Hb, insert_app_r_alt by lia.
    by rewrite Nat.sub_diag, <- app_assoc.
  - pose proof (scan_single_bare i s name ver "="%char Hb) as Hs.
    fold s' in Hs. rewrite Hs; [|unfold is_op; auto|done..].
    split; [done|]. split; [|done]. eexists. split; [done|].
    apply (string_at_drop i _ _ (name ++ [NUL]) ver);
      [|rewrite length_app; simpl; lia | by apply word_nonul].
    change (buffer i (poke i (length name) NUL s) = (name ++ [NUL]) ++ ver).
    rewrite buffer_poke_eq, Hb, insert_app_r_alt by lia.
    by rewrite Nat.sub_diag, <- app_assoc.
Qed.

(** [pkg info 'pkg>=1.0']: name [pkg], sign [GE], version [1.0]. *)
Lemma scan_reads_one_constraint_witness :
  let s := init pkgcli_h (command [] ["pkg>=1.0"%string]) in
  let name := list_ascii_of_string "pkg" in
  let ver := list_ascii_of_string "1.0" in
  (buffer 0 s = name ++ render_sign GE ++ ver /\ word name /\ word ver /\
   pkgversion s = None) /\
  cstr (buffer 0 (scan_specifier 0 s)) = name /\
  sign (scan_specifier 0 s) = GE.
Proof.
  intros s name ver.
  assert (forall l, Forall (fun c => bool_decide (c ≠ NUL /\ ~ is_op c) = true) l
                    -> word l) as Hword.
  { intros l Hl. eapply Forall_impl; [exact Hl|].
    intros c Hc. by apply bool_decide_eq_true in Hc. }
  assert (word name) as Hn by (apply Hword; repeat constructor).
  assert (word ver) as Hv by (apply Hword; repeat constructor).
  split; [by split_and!|].
  destruct (scan_reads_one_constraint 0 s GE name ver eq_refl Hn Hv eq_refl)
    as (H1 & H2 & _).
  by split.
Defined.

(** ** The trailing slash *)

Lemma cstr_prefix_lookup (b : list ascii) k c :
  cstr b !! k = Some c -> b !! k = Some c.
Proof.
  destruct (cstr_decomp b) as (r & Hb & _). intros Hk.
  rewrite Hb. by apply lookup_app_l_Some.
Qed.

(** X10. One trailing slash is stripped and no more: a string that ends
    with [/] loses that byte, so [//] keeps one slash and [/] alone
    becomes empty; a string that does not end with [/] is left as it
    is. *)
Theorem strip_slash_strips_one argc i s :
  (0 < argc)%nat ->
  (forall name, cstr (buffer i s) = name ++ ["/"%char] ->
     cstr (buffer i (strip_slash argc i s)) = name) /\
  (last (cstr (buffer i s)) ≠ Some "/"%char -> strip_slash argc i s = s).
Proof.
  intros Hargc. unfold strip_slash, strlen. rewrite decide_True by done. split.
  - intros name Hc. rewrite Hc, length_app. simpl.
    replace (length name + 1)%nat with (S (length name)) by lia.
    assert (peek i (length name) s = "/"%char) as Hp.
    { rewrite peek_buffer.
      rewrite (cstr_prefix_lookup (buffer i s) (length name) "/"%char); [done|].
      rewrite Hc. by rewrite list_lookup_middle. }
    rewrite decide_True by done.
    rewrite buffer_poke_eq.
    destruct (cstr_decomp (buffer i s)) as (r & Hb & Hn & _).
    rewrite Hc in Hb, Hn. rewrite Hb, <- app_assoc.
    rewrite insert_app_r_alt by lia. rewrite Nat.sub_diag. simpl.
    rewrite cstr_app_nonul; [by rewrite app_nil_r|].
    by apply Forall_app in Hn as [? _].
  - intros Hl.
    destruct (cstr (buffer i s)) as [|c l] eqn:Hc using rev_ind; [done|].
    rewrite length_app. simpl.
    replace (length l + 1)%nat with (S (length l)) by lia.
    rewrite last_snoc in Hl.
    assert (peek i (length l) s = c) as Hp.
    { rewrite peek_buffer.
      rewrite (cstr_prefix_lookup (buffer i s) (length l) c); [done|].
      rewrite Hc. by rewrite list_lookup_middle. }
    rewrite decide_False; [done|]. rewrite Hp. congruence.
Qed.

(** [pkg info audio/sox/] asks for [audio/sox]. *)
Lemma strip_slash_strips_one_witness :
  let s := init pkgcli_h (command [] ["audio/sox/"%string]) in
  (0 < 1)%nat /\
  cstr (buffer 0 (strip_slash 1 0 s)) = list_ascii_of_string "audio/sox".
Proof.
  intros s. split; [lia|].
  destruct (strip_slash_strips_one 1 0 s) as [H _]; [lia|].
  by apply H.
Defined.

(** ** Constraints from one specifier to the next *)

Lemma plain_buf_strip_slash argc i s :
  plain_buf (buffer i s) -> plain_buf (buffer i (strip_slash argc i s)).
Proof.
  intros Hp. unfold strip_slash. repeat case_match; try done.
  rewrite buffer_poke_eq. by apply Forall_insert.
Qed.

Lemma string_at_other_buffer p s s' :
  buffer p.1 s' = buffer p.1 s -> string_at p s' = string_at p s.
Proof. unfold string_at, buffer. by intros ->. Qed.

(** X11. The version pointers and signs are not reset between specifiers.
    When an argument has no operator character, and the constraints held
    so far point into other arguments, the state after its stripping and
    scan keeps both constraints as they are, and the cursor loop of this
    specifier keeps and drops records exactly as for the specifier that
    brought the constraints. *)
Theorem constraints_carry_over w argc i s :
  plain_buf (buffer i s) ->
  (forall p, pkgversion s = Some p -> p.1 ≠ i) ->
  (forall p, pkgversion2 s = Some p -> p.1 ≠ i) ->
  let s1 := scan_specifier i (strip_slash argc i (set_gotone false s)) in
  pkgversion s1 = pkgversion s /\ pkgversion2 s1 = pkgversion2 s /\
  sign s1 = sign s /\ sign2 s1 = sign2 s /\
  forall v, keeps w v s1 = keeps w v s.
Proof.
  intros Hp H1 H2 s1.
  set (s0 := strip_slash argc i (set_gotone false s)).
  assert (plain_buf (buffer i s0)) as Hp0.
  { subst s0. by apply plain_buf_strip_slash. }
  assert (s1 = s0) as ->.
  { subst s1. unfold scan_specifier. by apply scan_plain. }
  assert (pkgversion s0 = pkgversion s /\ pkgversion2 s0 = pkgversion2 s /\
          sign s0 = sign s /\ sign2 s0 = sign2 s) as (Hv & Hv2 & Hs & Hs2).
  { subst s0. unfold strip_slash. by repeat case_match. }
  split_and!; try done.
  intros v. unfold keeps. rewrite Hv, Hv2, Hs, Hs2.
  assert (forall p, p.1 ≠ i -> string_at p s0 = string_at p s) as Hstr.
  { intros p Hne. apply string_at_other_buffer. subst s0.
    by rewrite buffer_strip_slash_ne. }
  destruct (pkgversion s) as [p1|] eqn:E1, (pkgversion2 s) as [p2|] eqn:E2;
    rewrite ?(Hstr p1) by (by apply H1); rewrite ?(Hstr p2) by (by apply H2);
    done.
Qed.

(** [pkg info 'foo>3.0' foobar]: the constraint of the first argument is
    still there when the second one is scanned. *)
Lemma constraints_carry_over_witness :
  let s := scan_specifier 0
             (init pkgcli_h (command [] ["foo>3.0"%string; "foobar"%string])) in
  (plain_buf (buffer 1 s) /\
   (forall p, pkgversion s = Some p -> p.1 ≠ 1%nat) /\
   (forall p, pkgversion2 s = Some p -> p.1 ≠ 1%nat)) /\
  pkgversion (scan_specifier 1 (strip_slash 2 1 (set_gotone false s)))
    = Some (0%nat, 4%nat).
Proof.
  intros s.
  assert (plain_buf (buffer 1 s)) as H0.
  { assert (forall l, Forall (fun c => bool_decide
              (c ≠ "<"%char ∧ c ≠ ">"%char ∧ c ≠ "="%char) = true) l
                      -> plain_buf l) as Hpl.
    { intros l Hl. eapply Forall_impl; [exact Hl|]. intros c Hc.
      by apply bool_decide_eq_true in Hc. }
    apply Hpl. vm_compute. repeat constructor. }
  assert (forall p, pkgversion s = Some p -> p.1 ≠ 1%nat) as H1.
  { intros p [= <-]. discriminate. }
  assert (forall p, pkgversion2 s = Some p -> p.1 ≠ 1%nat) as H2.
  { intros p [=]. }
  split; [by split_and!|].
  destruct (constraints_carry_over installed 2 1 s H0 H1 H2) as (-> & _).
  reflexivity.
Defined.

(** On the sample: [foobar-0.5] is dropped by the [>3.0] that came with
    [foo]. *)
Example constraint_of_first_filters_second :
  exec_info pkgcli_h installed
    (command [] ["foo>3.0"%string; "foobar"%string]) =
    (EX_SOFTWARE,
     [EvQuery (Some "foo"%string) MATCH_GLOB;
      EvWarnx "No package(s) matching foo"; EvItFree;
      EvQuery (Some "foobar"%string) MATCH_GLOB; EvItFree]).
Proof. by vm_compute. Qed.

(** * Properties of the event layer *)

(** ** [sbuf_json_escape] *)

Lemma json_escape_loop_acc (s : list ascii) (buf : sbuf) :
  json_escape_loop s buf = buf ++ json_escape_loop s [].
Proof.
  revert buf. induction s as [|c s IH]; intros buf; simpl.
  - by rewrite app_nil_r.
  - case_decide; [by rewrite app_nil_r|].
    rewrite IH, (IH (sbuf_putc _ c)). unfold sbuf_putc.
    case_decide; simpl; by rewrite <- ?app_assoc.
Qed.

Lemma json_escape_loop_cons (c : ascii) (s : list ascii) :
  json_escape_loop (c :: s) [] =
    if decide (c = NUL) then []
    else (if decide (c = dquote \/ c = backslash) then [backslash; c]
          else [c]) ++ json_escape_loop s [].
Proof.
  simpl. case_decide; [done|]. rewrite json_escape_loop_acc.
  by case_decide.
Qed.

Lemma json_escape_nonul (buf : sbuf) (str : option (list ascii)) :
  Forall (fun c => c ≠ NUL) (sbuf_json_escape buf str).
Proof.
  destruct str as [s|]; unfold sbuf_json_escape, sbuf_clear; [|constructor].
  induction s as [|c s IH]; [constructor|].
  rewrite json_escape_loop_cons. case_decide; [constructor|].
  case_decide; repeat constructor; done.
Qed.

Lemma cstr_json_escape (buf : sbuf) (str : option (list ascii)) :
  cstr (sbuf_json_escape buf str) = sbuf_json_escape buf str.
Proof. apply cstr_nonul_id, json_escape_nonul. Qed.

Lemma read_json_escape_loop (s rest : list ascii) :
  read_json_string (json_escape_loop s [] ++ dquote :: rest) =
    Some (cstr s, rest).
Proof.
  induction s as [|c s IH]; [done|].
  rewrite json_escape_loop_cons.
  change (cstr (c :: s)) with (if decide (c = NUL) then [] else c :: cstr s).
  case_decide; [done|].
  case_decide as Hq.
  - change (read_json_string (([backslash; c] ++ json_escape_loop s [])
                                ++ dquote :: rest))
      with (match read_json_string (json_escape_loop s [] ++ dquote :: rest)
            with Some (s0, r) => Some (c :: s0, r) | None => None end).
    by rewrite IH.
  - simpl. rewrite !decide_False by tauto. by rewrite IH.
Qed.

Lemma read_json_plain (pre l : list ascii) :
  Forall (fun c => c ≠ dquote /\ c ≠ backslash) pre ->
  read_json_string (pre ++ l) =
    match read_json_string l with
    | Some (s, r) => Some (pre ++ s, r)
    | None => None
    end.
Proof.
  induction 1 as [|c pre [Hq Hb] _ IH]; simpl.
  - by destruct (read_json_string l) as [[]|].
  - rewrite !decide_False by done. rewrite IH.
    by destruct (read_json_string l) as [[]|].
Qed.

(** X12. What [sbuf_json_escape] writes reads back: behind the escaped
    text and a closing quote, a reader of JSON strings finds the string
    that was passed (up to its terminator; the empty string for NULL) and
    stops exactly at the closing quote, whatever the scratch buffer held
    and whatever follows. *)
Theorem json_escape_reads_back (buf : sbuf) (str : option (list ascii))
    (rest : list ascii) :
  read_json_string (sbuf_json_escape buf str ++ dquote :: rest) =
    Some (from_option cstr [] str, rest).
Proof.
  destruct str as [s|]; unfold sbuf_json_escape, sbuf_clear.
  - apply read_json_escape_loop.
  - done.
Qed.

Lemma occurrences_app (c : ascii) (l r : list ascii) :
  occurrences c (l ++ r) = (occurrences c l + occurrences c r)%nat.
Proof. unfold occurrences. by rewrite filter_app, length_app. Qed.

Lemma occurrences_cons (c x : ascii) (l : list ascii) :
  occurrences c (x :: l) =
    ((if decide (x = c) then 1 else 0) + occurrences c l)%nat.
Proof.
  unfold occurrences. rewrite filter_cons. by case_decide.
Qed.

(** X13. The escape adds backslashes and nothing else: one before each
    double quote and each backslash of the string.  Every other byte,
    a newline or a control character included, occurs in the result as
    often as in the string. *)
Theorem json_escape_adds_only_backslashes (buf : sbuf) (s : list ascii) :
  let e := sbuf_json_escape buf (Some s) in
  (forall c, c ≠ backslash -> occurrences c e = occurrences c (cstr s)) /\
  occurrences backslash e =
    (2 * occurrences backslash (cstr s) + occurrences dquote (cstr s))%nat /\
  length e =
    (length (cstr s) + occurrences backslash (cstr s)
     + occurrences dquote (cstr s))%nat.
Proof.
  unfold sbuf_json_escape, sbuf_clear; simpl.
  induction s as [|c s (IH1 & IH2 & IH3)]; [done|].
  rewrite json_escape_loop_cons.
  change (cstr (c :: s)) with (if decide (c = NUL) then [] else c :: cstr s).
  case_decide; [done|].
  rewrite occurrences_app, length_app, IH2, IH3.
  rewrite !(occurrences_cons _ c (cstr s)).
  split_and!.
  - intros x Hx. rewrite occurrences_app, IH1, (occurrences_cons x c) by done.
    f_equal. case_decide.
    + rewrite !occurrences_cons. rewrite decide_False by done.
      by unfold occurrences.
    + rewrite !occurrences_cons. by unfold occurrences.
  - case_decide as Hq.
    + rewrite !occurrences_cons. rewrite decide_True by done.
      unfold occurrences at 1; simpl.
      destruct Hq as [-> | ->].
      * rewrite !decide_False by done. rewrite decide_True by done. lia.
      * rewrite !decide_True by done. rewrite decide_False by done. lia.
    + rewrite !occurrences_cons. unfold occurrences at 1; simpl.
      rewrite !decide_False by tauto. lia.
  - case_decide as Hq; simpl.
    + destruct Hq as [-> | ->].
      * rewrite decide_False by done. rewrite decide_True by done. lia.
      * rewrite decide_True by done. rewrite decide_False by done. lia.
    + rewrite !decide_False by tauto. lia.
Qed.

(** ** The lines of [pipeevent] *)

Ltac flatten_apps := repeat (progress (simpl; rewrite <- ?app_assoc)).

(** X14. The message of an error, a notice and a developer-mode event
    reads back from the line: behind the opening quote of the [msg]
    field a reader of JSON strings finds the message (with its
    [DEVELOPER_MODE: ] prefix for the third) and then the two closing
    braces, whatever bytes the message holds. *)
Theorem message_reads_back (L : libpkg) (m : option (list ascii)) :
  let text := from_option cstr [] m in
  (exists body,
     pipeevent_msg L (PKG_EVENT_ERROR m) =
       lit "{ 'type': 'ERROR', 'data': {'msg': '" ++ body /\
     read_json_string body = Some (text, lit "}}")) /\
  (exists body,
     pipeevent_msg L (PKG_EVENT_NOTICE m) =
       lit "{ 'type': 'NOTICE', 'data': {'msg': '" ++ body /\
     read_json_string body = Some (text, lit "}}")) /\
  (exists body,
     pipeevent_msg L (PKG_EVENT_DEVELOPER_MODE m) =
       lit "{ 'type': 'ERROR', 'data': {'msg': '" ++ body /\
     read_json_string body = Some (lit "DEVELOPER_MODE: " ++ text, lit "}}")).
Proof.
  intros text.
  assert (forall rest,
            read_json_string (sbuf_json_escape [] m ++ dquote :: rest) =
              Some (text, rest)) as Hread.
  { intros rest. subst text.
    destruct m as [s|]; unfold sbuf_json_escape, sbuf_clear;
      [apply read_json_escape_loop | done]. }
  split_and!.
  - eexists. split.
    + unfold pipeevent_msg, sbuf_printf. simpl. rewrite cstr_json_escape.
      reflexivity.
    + apply Hread.
  - eexists. split.
    + unfold pipeevent_msg, sbuf_printf. simpl. rewrite cstr_json_escape.
      reflexivity.
    + apply Hread.
  - exists (lit "DEVELOPER_MODE: " ++ sbuf_json_escape [] m ++ lit "'}}").
    split.
    + unfold pipeevent_msg, sbuf_printf. simpl. rewrite cstr_json_escape.
      reflexivity.
    + rewrite read_json_plain
        by (repeat (constructor; [by split|]); constructor).
      change (lit "'}}") with (dquote :: lit "}}").
      by rewrite Hread.
Qed.

Lemma dep_printf (msg : sbuf) (d : pkg_dep) :
  sbuf_printf msg "{ 'pkgname': '%s', 'pkgversion': '%s' }, "
    [FStr (pkg_dep_name d); FStr (pkg_dep_version d)] =
  msg ++ dep_item d ++ lit ", ".
Proof.
  unfold sbuf_printf, dep_item. f_equal. all: by flatten_apps.
Qed.

Lemma rdeps_loop_concat (msg : sbuf) (deps : list pkg_dep) :
  rdeps_loop msg deps =
    msg ++ concat ((fun d => dep_item d ++ lit ", ") <$> deps).
Proof.
  revert msg. induction deps as [|d deps IH]; intros msg.
  - by rewrite app_nil_r.
  - unfold rdeps_loop in *. cbn [foldl]. rewrite IH, dep_printf.
    cbn [fmap list_fmap concat]. by rewrite <- !app_assoc.
Qed.

Lemma concat_join {A} (f : A -> list ascii) (sep : list ascii) (x : A)
    (items : list A) :
  concat ((fun i => f i ++ sep) <$> (x :: items)) =
    join sep (f <$> x :: items) ++ sep.
Proof.
  revert x. induction items as [|y items IH]; intros x.
  - simpl. by rewrite app_nil_r.
  - change (concat ((fun i => f i ++ sep) <$> x :: y :: items))
      with ((f x ++ sep) ++ concat ((fun i => f i ++ sep) <$> y :: items)).
    rewrite IH.
    change (join sep (f <$> x :: y :: items))
      with (f x ++ sep ++ join sep (f <$> y :: items)).
    by rewrite <- !app_assoc.
Qed.

Lemma sbuf_setpos_cut (l : sbuf) (a b : ascii) :
  sbuf_setpos (l ++ [a; b]) (sbuf_len (l ++ [a; b]) - 2) = l.
Proof.
  unfold sbuf_setpos, sbuf_len. rewrite length_app. simpl.
  rewrite decide_True by lia.
  replace (Z.to_nat (Z.of_nat (length l + 2) - 2)) with (length l) by lia.
  by rewrite take_app_length.
Qed.

Lemma required_header_tail (L : libpkg) (p : pkg) (force : Z) :
  required_header L p force =
    pkg_sbuf_printf L []
      "{ 'type': 'ERROR_REQUIRED', 'data': { 'pkgname': '%n', 'pkgversion': '%v', 'force': %S, 'required_by':"
      [FPkg p; FPkg p;
       FStr (lit (if decide (force = 1%Z) then "true" else "false"))]
    ++ lit " [".
Proof.
  unfold required_header, pkg_sbuf_printf. by flatten_apps.
Qed.

(** X15. The [required_by] list of a required event.  With dependencies
    the items are separated by a comma and a space and the separator
    behind the last one is taken back.  Without a dependency the two
    bytes taken back are the space and the opening bracket of the list
    itself, so the line closes a list that it does not open. *)
Theorem required_by_list (L : libpkg) (p : pkg) (force : Z) :
  let header := required_header L p force in
  let msg := pipeevent_msg L (PKG_EVENT_REQUIRED p force) in
  match pkg_rdeps L p with
  | [] => exists h0, header = h0 ++ lit " [" /\ msg = h0 ++ lit "]}}"
  | d :: deps =>
      msg = header ++ join (lit ", ") (dep_item <$> d :: deps) ++ lit "]}}"
  end.
Proof.
  intros header msg. subst header msg. unfold pipeevent_msg.
  rewrite rdeps_loop_concat. cbn [app].
  destruct (pkg_rdeps L p) as [|d deps].
  - eexists. split; [apply required_header_tail|].
    cbn [fmap list_fmap concat]. rewrite app_nil_r.
    rewrite required_header_tail.
    change (lit " [") with [" "%char; "["%char].
    by rewrite sbuf_setpos_cut.
  - rewrite concat_join, !app_assoc.
    change (lit ", ") with [","%char; " "%char] at 2.
    by rewrite sbuf_setpos_cut.
Qed.

Lemma conflict_printf (msg : sbuf) (c : pkg_event_conflict) :
  sbuf_printf msg "{'name':'%s','version':'%s','origin':'%s'}"
    [FStr (conflict_name c); FStr (conflict_version c);
     FStr (conflict_origin c)] =
  msg ++ conflict_item c.
Proof.
  unfold sbuf_printf, conflict_item. f_equal. all: by flatten_apps.
Qed.

Lemma conflict_printf_comma (msg : sbuf) (c : pkg_event_conflict) :
  sbuf_printf msg "{'name':'%s','version':'%s','origin':'%s'},"
    [FStr (conflict_name c); FStr (conflict_version c);
     FStr (conflict_origin c)] =
  msg ++ conflict_item c ++ lit ",".
Proof.
  unfold sbuf_printf, conflict_item. f_equal. all: by flatten_apps.
Qed.

Lemma conflict_loop_join (msg : sbuf) (cs : list pkg_event_conflict) :
  conflict_loop msg cs = msg ++ join (lit ",") (conflict_item <$> cs).
Proof.
  revert msg. induction cs as [|c cs IH]; intros msg.
  - by rewrite app_nil_r.
  - destruct cs as [|c' cs].
    + apply conflict_printf.
    + change (conflict_loop msg (c :: c' :: cs))
        with (conflict_loop
                (sbuf_printf msg "{'name':'%s','version':'%s','origin':'%s'},"
                   [FStr (conflict_name c); FStr (conflict_version c);
                    FStr (conflict_origin c)])
                (c' :: cs)).
      rewrite IH, conflict_printf_comma.
      change (join (lit ",") (conflict_item <$> c :: c' :: cs))
        with (conflict_item c ++ lit ","
              ++ join (lit ",") (conflict_item <$> c' :: cs)).
      by rewrite <- !app_assoc.
Qed.

(** X16. The [conflicts] list of an integrity-check conflict event is the
    items with one comma between neighbours: no comma behind the last
    item, and an empty list for no conflict. *)
Theorem conflicts_list (L : libpkg) (n v o pa : list ascii)
    (cs : list pkg_event_conflict) :
  pipeevent_msg L (PKG_EVENT_INTEGRITYCHECK_CONFLICT n v o pa cs) =
    conflict_header n v o pa
    ++ join (lit ",") (conflict_item <$> cs) ++ lit "]}}".
Proof.
  unfold pipeevent_msg, sbuf_cat. rewrite conflict_loop_join.
  cbn [app]. by rewrite <- app_assoc.
Qed.

(** ** Emission *)




(** The line that [pipeevent] writes for an event. *)
Lemma pipeevent_line (C : config) (L : libpkg) (ev : pkg_event) :
  pipeevent C L ev =
    if decide (eventpipe C < 0)%Z then []
    else [Dprintf (eventpipe C) (cstr (pipeevent_msg L ev) ++ [LF])].
Proof.
  unfold pipeevent, dprintf. by case_decide.
Qed.

Lemma pkg_emit_event_parts (C : config) (L : libpkg) (R : registration)
    (ev : pkg_event) :
  hooked (pkg_emit_event C L R ev) = [ev] /\
  called_back (pkg_emit_event C L R ev) =
    match _cb R with Some cb => [(cb, _data R, ev)] | None => [] end /\
  piped (pkg_emit_event C L R ev) =
    if decide (eventpipe C < 0)%Z then []
    else [(eventpipe C, cstr (pipeevent_msg L ev) ++ [LF])].
Proof.
  unfold pkg_emit_event. rewrite pipeevent_line.
  destruct (_cb R); case_decide; done.
Qed.







Lemma sbuf_setpos_head (c a b : ascii) (l : sbuf) :
  exists r, sbuf_setpos (c :: a :: b :: l) (sbuf_len (c :: a :: b :: l) - 2)
            = c :: r.
Proof.
  unfold sbuf_setpos, sbuf_len. simpl length.
  rewrite decide_True by lia.
  replace (Z.to_nat (Z.of_nat (S (S (S (length l)))) - 2))
    with (S (length l)) by lia.
  by eexists.
Qed.

Lemma pipeevent_msg_head (L : libpkg) (ev : pkg_event) :
  ~ no_case ev -> exists r, cstr (pipeevent_msg L ev) = "{"%char :: r.
Proof.
  intros Hn.
  destruct ev; cbn [no_case] in Hn; try tauto;
    lazymatch goal with
    | |- context [PKG_EVENT_INTEGRITYCHECK_CONFLICT] =>
        unfold pipeevent_msg, sbuf_cat; rewrite conflict_loop_join;
        unfold conflict_header, sbuf_printf; cbn [app]
    | |- context [PKG_EVENT_REQUIRED] =>
        unfold pipeevent_msg; rewrite rdeps_loop_concat;
        unfold required_header, pkg_sbuf_printf; cbn [app]
    | |- _ =>
        unfold pipeevent_msg, sbuf_printf, pkg_sbuf_printf; cbn [app]; simpl;
        by eexists
    end.
  - simpl. by eexists.
  - match goal with
    | |- context [sbuf_setpos ?m _] =>
        assert (exists a b l, m = "{"%char :: a :: b :: l)
          as (a & b & l & ->) by (simpl; by eexists _, _, _)
    end.
    destruct (sbuf_setpos_head "{" a b l) as [r ->].
    unfold sbuf_cat. simpl. by eexists.
Qed.

(** X19. On an open pipe the line of an event is empty exactly for the
    two kinds without a case in the switch, a package that was not found
    and a debug message; every other line starts with an opening
    brace. *)
Theorem empty_line_iff_no_case (C : config) (L : libpkg) (ev : pkg_event) :
  (0 <= eventpipe C)%Z ->
  (pipeevent C L ev = [Dprintf (eventpipe C) [LF]] <-> no_case ev) /\
  (~ no_case ev ->
   exists r, pipeevent C L ev = [Dprintf (eventpipe C) ("{"%char :: r)]).
Proof.
  intros Hp. rewrite pipeevent_line, decide_False by lia. split.
  - split.
    + intros H. destruct (decide (no_case ev)) as [|Hn]; [done|].
      destruct (pipeevent_msg_head L ev Hn) as [r Hr].
      rewrite Hr in H. discriminate H.
    + destruct ev; cbn [no_case]; try tauto; intros _;
        by unfold pipeevent_msg.
  - intros Hn. destruct (pipeevent_msg_head L ev Hn) as [r ->].
    by eexists.
Qed.

Lemma empty_line_iff_no_case_witness :
  (0 <= eventpipe sample_config)%Z /\
  ((pipeevent sample_config sample_libpkg (PKG_EVENT_DEBUG 1 (lit "x")) =
      [Dprintf (eventpipe sample_config) [LF]]
    <-> no_case (PKG_EVENT_DEBUG 1 (lit "x"))) /\
   (~ no_case (PKG_EVENT_DEBUG 1 (lit "x")) ->
    exists r,
      pipeevent sample_config sample_libpkg (PKG_EVENT_DEBUG 1 (lit "x")) =
        [Dprintf (eventpipe sample_config) ("{"%char :: r)])).
Proof.
  split; [simpl; lia|]. apply empty_line_iff_no_case. simpl. lia.
Defined.

(** X20. [pkg_debug] does nothing at all for a level above the configured
    one.  At or below it the event goes to the plugin hook with its level
    and its message, but the message does not reach the event pipe: what
    the pipe gets for it is an empty line. *)
Theorem debug_message_stays_off_the_pipe (C : config) (L : libpkg)
    (R : registration) (level : Z) (msg : list ascii) :
  (pkg_debug C L R level msg = [] <-> (PKG_CONFIG_DEBUG_LEVEL C < level)%Z) /\
  hooked (pkg_debug C L R level msg) =
    (if decide (PKG_CONFIG_DEBUG_LEVEL C < level)%Z then []
     else [PKG_EVENT_DEBUG level msg]) /\
  (forall fd text,
     (fd, text) ∈ piped (pkg_debug C L R level msg) -> text = [LF]).
Proof.
  unfold pkg_debug. cbv zeta. case_decide as Hl.
  - split_and!; [done|done|]. intros fd text H. by apply elem_of_nil in H.
  - destruct (pkg_emit_event_parts C L R (PKG_EVENT_DEBUG level msg))
      as (Hh & _ & Hp).
    split_and!.
    + split; [|done]. intros H. by rewrite H in Hh.
    + done.
    + intros fd text. rewrite Hp. case_decide.
      * by intros ?%elem_of_nil.
      * intros Hin%list_elem_of_singleton. by injection Hin as _ ->.
Qed.

(** The line of a required event for a package that nothing depends on,
    and the escape of a string with a quote and a backslash. *)
Example required_by_nothing :
  pipeevent_msg sample_libpkg
    (PKG_EVENT_REQUIRED {| pkg_name := "foo"; pkg_version := "2.0" |} 0) =
  lit "{ 'type': 'ERROR_REQUIRED', 'data': { 'pkgname': 'foo', 'pkgversion': '2.0', 'force': false, 'required_by':]}}".
Proof. by vm_compute. Qed.

Example escape_of_quote_and_backslash :
  sbuf_json_escape [] (Some (lit "a'b\c")) = lit "a\'b\\c".
Proof. by vm_compute. Qed.
